(** * evaluate_qd_dense_scenario_single_ap: lifecycle and telemetry callbacks

    A shallow embedding of the stateful part of
    [scratch/evaluate_qd_dense_scenario_single_ap.cc]: the global tables
    ([map_Mac2ID], [communicationPairList], [biCounter]), the trace callbacks
    and the periodic throughput sampler, followed by the properties the
    specification states about them.

    Conventions.
    - [uint16_t], [uint32_t] and [uint64_t] values are [Z] with the wrap-around
      written out ([wrap16], [wrap32], [wrap64]).
    - [double] is the kernel's binary64 [float]; the arithmetic of the source
      ([*], [/], [+=]) is IEEE arithmetic with round-to-nearest-even.
    - [Time] is a count of nanoseconds.
    - [Ptr<...>] values and [Mac48Address] are object identities, modelled as
      numbers; [std::map] is a [gmap], iterated in ascending key order.
    - The script's globals live in one [State] record that every callback
      threads through; output streams are lists of structured rows. *)

From Stdlib Require Import ZArith Floats.
From stdpp Require Import gmap list sorting strings.

Local Open Scope Z_scope.

(** ** Machine integers and doubles *)

Definition wrap16 (z : Z) : Z := z mod 2 ^ 16.
Definition wrap32 (z : Z) : Z := z mod 2 ^ 32.
Definition wrap64 (z : Z) : Z := z mod 2 ^ 64.

(** Conversion of an unsigned 64-bit integer to [double], as the usual
    arithmetic conversions do in [uint64_t * double]: the nearest binary64
    value, ties to even. *)
Definition uint64_to_double (z : Z) : float :=
  SF2Prim (binary_normalize prec emax z 0 false).

(** ** Identities of the substrate's objects *)

Abbreviation Mac48Address := N (only parsing).
Abbreviation NodePtr := N (only parsing).
Abbreviation ApplicationPtr := N (only parsing).
Abbreviation PacketSinkPtr := N (only parsing).
Abbreviation Time := Z (only parsing).

(** [MilliSeconds (100)] and [Seconds (0.1)], in nanoseconds. *)
Definition MilliSeconds (ms : Z) : Time := ms * 1000000.
Definition samplingPeriod : Time := MilliSeconds 100.

(** The frame types [MacRxOk] names; every other enumerator of
    [WifiMacType] is an [WIFI_MAC_OTHER] with its enumerator's rank. *)
Inductive WifiMacType :=
| WIFI_MAC_QOSDATA
| WIFI_MAC_EXTENSION_DMG_BEACON
| WIFI_MAC_CTL_DMG_SSW
| WIFI_MAC_CTL_DMG_SSW_FBCK
| WIFI_MAC_CTL_DMG_SSW_ACK
| WIFI_MAC_OTHER (rank : N).

Inductive TypeOfStation := DMG_STA | DMG_AP | DMG_ADHOC.

(** What the callbacks read from a [DmgWifiMac] at the instant they run. *)
Record DmgWifiMac := mkDmgWifiMac {
  GetAddress : Mac48Address;
  IsAssociated : bool;
  GetBssid : Mac48Address;
  GetTypeOfStation : TypeOfStation
}.

(** ** Type definitions of the script *)

Record CommunicationPair := mkCommunicationPair {
  srcApp : ApplicationPtr;
  packetSink : PacketSinkPtr;
  totalRx : Z;
  throughput : float;
  startTime : Time
}.

Record Parameters := mkParameters {
  srcNodeID : Z;
  wifiMac : DmgWifiMac
}.

(** ** Output and effects *)

Inductive ApplicationCommand := StartApplication | StopApplication.

(** One row of [slsResults.csv]. *)
Record SlsRow := mkSlsRow {
  sls_SRC_ID : Z;
  sls_DST_ID : Z;
  sls_TRACE_IDX : Z;
  sls_SECTOR_ID : Z;
  sls_ANTENNA_ID : Z;
  sls_ROLE : TypeOfStation;
  sls_BSS_ID : Z;
  sls_Timestamp : Time
}.

(** One row of [snrValues.csv]. *)
Record SnrRow := mkSnrRow {
  snr_TIME : Time;
  snr_SRC : Mac48Address;
  snr_DST : Mac48Address;
  snr_SNR : float
}.

(** Lines written to [std::cout]; each carries the values the text is
    rendered from. *)
Inductive CoutLine :=
| AssociatedLine (sta ap : Mac48Address) (aid : Z)
| DeassociatedLine (sta ap : Mac48Address)
| SlsLine (srcNode : Z) (address : Mac48Address) (sector antenna : Z)
| PlainThroughputLine (at_time : Time) (rates : list float) (total : float)
| CsvThroughputLine (at_time : Time) (rates : list float) (total : float).

Inductive Event := EvCalculateThroughput.

(** ** The globals *)

Record State := mkState {
  Now : Time;
  csv : bool;
  reportDataSnr : bool;
  applicationType : string;
  biThreshold : Z;
  currentTraceIndex : Z;
  nextApplication : ApplicationPtr;
  map_Mac2ID : gmap N Z;
  communicationPairList : gmap N CommunicationPair;
  biCounter : gmap N Z;
  applicationCommands : list (ApplicationPtr * ApplicationCommand);
  txssCbapRequests : list (Mac48Address * Mac48Address);
  slsStream : list SlsRow;
  snrStream : list SnrRow;
  cout : list CoutLine;
  pendingEvents : list (Time * Event)
}.

Definition set_Now (t : Time) (st : State) : State :=
  mkState t (csv st) (reportDataSnr st) (applicationType st) (biThreshold st)
    (currentTraceIndex st) (nextApplication st) (map_Mac2ID st)
    (communicationPairList st) (biCounter st) (applicationCommands st)
    (txssCbapRequests st) (slsStream st) (snrStream st) (cout st)
    (pendingEvents st).

Definition set_nextApplication (a : ApplicationPtr) (st : State) : State :=
  mkState (Now st) (csv st) (reportDataSnr st) (applicationType st)
    (biThreshold st) (currentTraceIndex st) a (map_Mac2ID st)
    (communicationPairList st) (biCounter st) (applicationCommands st)
    (txssCbapRequests st) (slsStream st) (snrStream st) (cout st)
    (pendingEvents st).

Definition set_map_Mac2ID (m : gmap N Z) (st : State) : State :=
  mkState (Now st) (csv st) (reportDataSnr st) (applicationType st)
    (biThreshold st) (currentTraceIndex st) (nextApplication st) m
    (communicationPairList st) (biCounter st) (applicationCommands st)
    (txssCbapRequests st) (slsStream st) (snrStream st) (cout st)
    (pendingEvents st).

Definition set_communicationPairList (m : gmap N CommunicationPair)
    (st : State) : State :=
  mkState (Now st) (csv st) (reportDataSnr st) (applicationType st)
    (biThreshold st) (currentTraceIndex st) (nextApplication st)
    (map_Mac2ID st) m (biCounter st) (applicationCommands st)
    (txssCbapRequests st) (slsStream st) (snrStream st) (cout st)
    (pendingEvents st).

Definition set_biCounter (m : gmap N Z) (st : State) : State :=
  mkState (Now st) (csv st) (reportDataSnr st) (applicationType st)
    (biThreshold st) (currentTraceIndex st) (nextApplication st)
    (map_Mac2ID st) (communicationPairList st) m (applicationCommands st)
    (txssCbapRequests st) (slsStream st) (snrStream st) (cout st)
    (pendingEvents st).

Definition set_applicationCommands
    (l : list (ApplicationPtr * ApplicationCommand)) (st : State) : State :=
  mkState (Now st) (csv st) (reportDataSnr st) (applicationType st)
    (biThreshold st) (currentTraceIndex st) (nextApplication st)
    (map_Mac2ID st) (communicationPairList st) (biCounter st) l
    (txssCbapRequests st) (slsStream st) (snrStream st) (cout st)
    (pendingEvents st).

Definition set_txssCbapRequests (l : list (Mac48Address * Mac48Address))
    (st : State) : State :=
  mkState (Now st) (csv st) (reportDataSnr st) (applicationType st)
    (biThreshold st) (currentTraceIndex st) (nextApplication st)
    (map_Mac2ID st) (communicationPairList st) (biCounter st)
    (applicationCommands st) l (slsStream st) (snrStream st) (cout st)
    (pendingEvents st).

Definition set_slsStream (l : list SlsRow) (st : State) : State :=
  mkState (Now st) (csv st) (reportDataSnr st) (applicationType st)
    (biThreshold st) (currentTraceIndex st) (nextApplication st)
    (map_Mac2ID st) (communicationPairList st) (biCounter st)
    (applicationCommands st) (txssCbapRequests st) l (snrStream st) (cout st)
    (pendingEvents st).

Definition set_snrStream (l : list SnrRow) (st : State) : State :=
  mkState (Now st) (csv st) (reportDataSnr st) (applicationType st)
    (biThreshold st) (currentTraceIndex st) (nextApplication st)
    (map_Mac2ID st) (communicationPairList st) (biCounter st)
    (applicationCommands st) (txssCbapRequests st) (slsStream st) l (cout st)
    (pendingEvents st).

Definition set_cout (l : list CoutLine) (st : State) : State :=
  mkState (Now st) (csv st) (reportDataSnr st) (applicationType st)
    (biThreshold st) (currentTraceIndex st) (nextApplication st)
    (map_Mac2ID st) (communicationPairList st) (biCounter st)
    (applicationCommands st) (txssCbapRequests st) (slsStream st)
    (snrStream st) l (pendingEvents st).

Definition set_pendingEvents (l : list (Time * Event)) (st : State) : State :=
  mkState (Now st) (csv st) (reportDataSnr st) (applicationType st)
    (biThreshold st) (currentTraceIndex st) (nextApplication st)
    (map_Mac2ID st) (communicationPairList st) (biCounter st)
    (applicationCommands st) (txssCbapRequests st) (slsStream st)
    (snrStream st) (cout st) l.

(** The globals as their initialisers leave them, before [main] runs. *)
Definition initialState : State :=
  mkState 0 false true "onoff" 10 0 0%N ∅ ∅ ∅ [] [] [] [] [] [].

(** [std::cout << ...] guarded by [if (!csv)]. *)
Definition print_unless_csv (line : CoutLine) (st : State) : State :=
  if csv st then st else set_cout (cout st ++ [line]) st.

(** A callback either returns or ends the run in [NS_FATAL_ERROR]; the
    state at the abort is kept, since what was printed before stays
    printed. *)
Inductive Outcome :=
| Returned (st : State)
| FatalError (msg : string) (st : State).

(** [m[k]] on a [std::map] with an integer value: a missing key is inserted
    with the value-initialised 0, and the stored value is returned. *)
Definition map_subscript (m : gmap N Z) (k : N) : Z * gmap N Z :=
  match m !! k with
  | Some v => (v, m)
  | None => (0, <[k := 0]> m)
  end.

(** ** Periodic throughput sampler *)

(** [sink->GetTotalRx ()] is read from the substrate: [GetTotalRx] gives the
    cumulative byte count of every sink at the instant of the call. The
    result is the returned rate with the new values of the two reference
    parameters. *)
Definition CalculateSingleStreamThroughput (GetTotalRx : PacketSinkPtr → Z)
    (sink : PacketSinkPtr) (lastTotalRx : Z) (averageThroughput : float)
    : float * (Z * float) :=
  let thr :=
    PrimFloat.div
      (PrimFloat.mul (uint64_to_double (wrap64 (GetTotalRx sink - lastTotalRx)))
                     8%float)
      1e5%float in
  let lastTotalRx := GetTotalRx sink in
  let averageThroughput := PrimFloat.add averageThroughput thr in
  (thr, (lastTotalRx, averageThroughput)).

(** Iteration over a [std::map] visits the entries in ascending key order. *)
Definition entry_le (a b : N * CommunicationPair) : Prop := (a.1 ≤ b.1)%N.

#[global] Instance entry_le_dec : RelDecision entry_le.
Proof. intros a b. unfold entry_le. apply _. Defined.

Definition entries (m : gmap N CommunicationPair)
    : list (N * CommunicationPair) :=
  merge_sort entry_le (map_to_list m).

(** The loop state of [CalculateThroughput]: the table being updated through
    the iterator, the rates printed so far, and [totalThr]. *)
Definition SamplerLoop : Type :=
  gmap N CommunicationPair * list float * float.

(** One iteration of the [for] loop (the same body in both branches). *)
Definition sampler_body (GetTotalRx : PacketSinkPtr → Z) (acc : SamplerLoop)
    (it : N * CommunicationPair) : SamplerLoop :=
  let '(pairs, printed, totalThr) := acc in
  let '(thr, (lastTotalRx, averageThroughput)) :=
    CalculateSingleStreamThroughput GetTotalRx (packetSink it.2)
      (totalRx it.2) (throughput it.2) in
  let second :=
    mkCommunicationPair (srcApp it.2) (packetSink it.2) lastTotalRx
      averageThroughput (startTime it.2) in
  (<[it.1 := second]> pairs, printed ++ [thr], PrimFloat.add totalThr thr).

(** Modelled from the spec: the substrate's "schedule at future time"
    primitive, [Simulator::Schedule (delay, event)]. The event is queued for
    [Now + delay], behind the events already queued for that instant or an
    earlier one. *)
Fixpoint insert_event (e : Time * Event) (q : list (Time * Event))
    : list (Time * Event) :=
  match q with
  | [] => [e]
  | e' :: q' => if e.1 <? e'.1 then e :: q else e' :: insert_event e q'
  end.

Definition Simulator_Schedule (delay : Time) (ev : Event) (st : State)
    : State :=
  set_pendingEvents (insert_event (Now st + delay, ev) (pendingEvents st)) st.

Definition CalculateThroughput (GetTotalRx : PacketSinkPtr → Z) (st : State)
    : State :=
  let '(pairs, printed, totalThr) :=
    foldl (sampler_body GetTotalRx)
          (communicationPairList st, [], 0%float)
          (entries (communicationPairList st)) in
  let line :=
    if csv st then CsvThroughputLine (Now st) printed totalThr
    else PlainThroughputLine (Now st) printed totalThr in
  Simulator_Schedule (MilliSeconds 100) EvCalculateThroughput
    (set_cout (cout st ++ [line]) (set_communicationPairList pairs st)).

(** Modelled from the spec: the substrate's event loop takes the earliest
    queued event, advances the clock to its time and invokes it. The sampler
    is the only event the script itself queues. [GetTotalRx_at] gives the
    sinks' counters at each instant. *)
Definition Simulator_InvokeNext (GetTotalRx_at : Time → PacketSinkPtr → Z)
    (st : State) : option State :=
  match pendingEvents st with
  | [] => None
  | (t, EvCalculateThroughput) :: q =>
      Some (CalculateThroughput (GetTotalRx_at t)
              (set_pendingEvents q (set_Now t st)))
  end.

Fixpoint Simulator_Invoke (n : nat) (GetTotalRx_at : Time → PacketSinkPtr → Z)
    (st : State) : option State :=
  match n with
  | O => Some st
  | S n' =>
      match Simulator_InvokeNext GetTotalRx_at st with
      | Some st' => Simulator_Invoke n' GetTotalRx_at st'
      | None => None
      end
  end.

(** [Simulator::Schedule (Seconds (0.1), &CalculateThroughput)] in [main]. *)
Definition main_schedule_throughput (st : State) : State :=
  Simulator_Schedule samplingPeriod EvCalculateThroughput st.

(** ** Traffic-pair lifecycle *)

Definition StationAssoicated (node : NodePtr) (staWifiMac : DmgWifiMac)
    (address : Mac48Address) (aid : Z) (st : State) : Outcome :=
  let st := print_unless_csv
              (AssociatedLine (GetAddress staWifiMac) address aid) st in
  match communicationPairList st !! node with
  | Some second =>
      let second :=
        mkCommunicationPair (srcApp second) (packetSink second)
          (totalRx second) (throughput second) (Now st) in
      Returned
        (set_applicationCommands
           (applicationCommands st ++ [(srcApp second, StartApplication)])
           (set_communicationPairList
              (<[node := second]> (communicationPairList st)) st))
  | None => FatalError "Could not find application to run." st
  end.

Definition StationDeassoicated (node : NodePtr) (staWifiMac : DmgWifiMac)
    (address : Mac48Address) (st : State) : Outcome :=
  let st := print_unless_csv
              (DeassociatedLine (GetAddress staWifiMac) address) st in
  match communicationPairList st !! node with
  | Some second =>
      Returned
        (set_applicationCommands
           (applicationCommands st ++ [(srcApp second, StopApplication)]) st)
  | None => FatalError "Could not find application to delete." st
  end.

(** [InstallApplications] creates the two applications of a pair; the
    substrate hands out their objects, here the next two unused identities.
    With an [applicationType] other than "onoff" and "bulk" the container
    [srcApp] stays empty and [srcApp.Get (0)] has no defined result. *)
Definition InstallApplications (srcNode dstNode : NodePtr) (address : N)
    (appNumber : Z) (st : State) : option (CommunicationPair * State) :=
  if bool_decide (applicationType st = "onoff")
     || bool_decide (applicationType st = "bulk")
  then
    let src := nextApplication st in
    let sink := (nextApplication st + 1)%N in
    Some (mkCommunicationPair src sink 0 0%float 0,
          set_nextApplication (nextApplication st + 2)%N st)
  else None.

(** The body of the loop "Install Applications" in [main]:
    [communicationPairList[sta] = InstallApplications (sta, ap, address, i)]. *)
Definition main_install_pair (srcNode dstNode : NodePtr) (address : N)
    (i : Z) (st : State) : option State :=
  match InstallApplications srcNode dstNode address (i mod 2 ^ 8) st with
  | Some (commPair, st) =>
      Some (set_communicationPairList
              (<[srcNode := commPair]> (communicationPairList st)) st)
  | None => None
  end.

Fixpoint main_install_from (i : Z) (staWifiNodes : list NodePtr)
    (apWifiNode : NodePtr) (apAddress : N) (st : State) : option State :=
  match staWifiNodes with
  | [] => Some st
  | sta :: rest =>
      match main_install_pair sta apWifiNode apAddress i st with
      | Some st => main_install_from (i + 1) rest apWifiNode apAddress st
      | None => None
      end
  end.

Definition main_install_applications (staWifiNodes : list NodePtr)
    (apWifiNode : NodePtr) (apAddress : N) (st : State) : option State :=
  main_install_from 0 staWifiNodes apWifiNode apAddress st.

(** ** Event trace emitter *)

(** [SECTOR_ID] and [ANTENNA_ID] are 8-bit; [uint16_t (sectorId)] widens
    them for printing. The two subscripts on [map_Mac2ID] are evaluated left
    to right along the chain of [<<]. *)
Definition SLSCompleted (parameters : Parameters) (address : Mac48Address)
    (sectorId antennaId : Z) (st : State) : State :=
  let '(dstIndex, ids) := map_subscript (map_Mac2ID st) address in
  let '(bssIndex, ids) := map_subscript ids (GetBssid (wifiMac parameters)) in
  let row :=
    mkSlsRow (wrap32 (srcNodeID parameters + 1)) (wrap32 (dstIndex + 1))
      (currentTraceIndex st) sectorId antennaId
      (GetTypeOfStation (wifiMac parameters)) (wrap32 (bssIndex + 1))
      (Now st) in
  let st := set_slsStream (slsStream st ++ [row]) (set_map_Mac2ID ids st) in
  print_unless_csv (SlsLine (srcNodeID parameters) address sectorId antennaId)
    st.

Definition is_beamforming_frame (type : WifiMacType) : bool :=
  match type with
  | WIFI_MAC_EXTENSION_DMG_BEACON
  | WIFI_MAC_CTL_DMG_SSW
  | WIFI_MAC_CTL_DMG_SSW_FBCK
  | WIFI_MAC_CTL_DMG_SSW_ACK => true
  | _ => false
  end.

Definition is_qosdata (type : WifiMacType) : bool :=
  match type with
  | WIFI_MAC_QOSDATA => true
  | _ => false
  end.

Definition MacRxOk (WifiMac : DmgWifiMac) (type : WifiMacType)
    (address : Mac48Address) (snrValue : float) (st : State) : State :=
  if is_qosdata type && reportDataSnr st then
    set_snrStream
      (snrStream st ++ [mkSnrRow (Now st) address (GetAddress WifiMac) snrValue])
      st
  else if is_beamforming_frame type then
    set_snrStream
      (snrStream st ++ [mkSnrRow (Now st) address (GetAddress WifiMac) snrValue])
      st
  else st.

(** ** Beamforming in the CBAP *)

(** [wifiMac->InitiateTxssCbap (bssid)] is recorded as a request of the
    station for a sweep towards [bssid]. *)
Definition DataTransmissionIntervalStarted (wifiMac : DmgWifiMac)
    (address : Mac48Address) (st : State) : State :=
  if IsAssociated wifiMac then
    let '(counter, counters) := map_subscript (biCounter st) address in
    let counter := wrap16 (counter + 1) in
    let '(counter, st) :=
      if counter =? biThreshold st then
        (0, set_txssCbapRequests
              (txssCbapRequests st ++ [(GetAddress wifiMac, GetBssid wifiMac)])
              st)
      else (counter, st) in
    set_biCounter (<[address := counter]> counters) st
  else st.

(** ** Setup in [main] *)

(** A network device as the setup loops see it: the address of its MAC and
    the id of its node. *)
Record WifiNetDevice := mkWifiNetDevice {
  GetMacAddress : Mac48Address;
  GetNodeId : Z
}.

(** "MAP MAC Addresses to NodeIDs":
    [map_Mac2ID[device mac address] = device node id] for every device. *)
Fixpoint main_map_devices (devices : list WifiNetDevice) (m : gmap N Z)
    : gmap N Z :=
  match devices with
  | [] => m
  | netDevice :: rest =>
      main_map_devices rest (<[GetMacAddress netDevice := GetNodeId netDevice]> m)
  end.

Definition main_build_map_Mac2ID (apDevice staDevices : list WifiNetDevice)
    (st : State) : State :=
  set_map_Mac2ID (main_map_devices (apDevice ++ staDevices) (map_Mac2ID st)) st.

(** [parameters->srcNodeID = wifiNetDevice->GetNode ()->GetId ()] with the
    MAC of the device, as the trace connections of [main] bind it. *)
Definition main_parameters (wifiNetDevice : WifiNetDevice)
    (mac : DmgWifiMac) : Parameters :=
  mkParameters (GetNodeId wifiNetDevice) mac.

(** [biCounter[staWifiMac->GetAddress ()] = 0] in the loop
    "Connect DMG STA traces". *)
Fixpoint main_reset_counters (staDevices : list WifiNetDevice)
    (m : gmap N Z) : gmap N Z :=
  match staDevices with
  | [] => m
  | dev :: rest => main_reset_counters rest (<[GetMacAddress dev := 0]> m)
  end.

(** ** Further setup in [main] *)

Definition wrap8 (z : Z) : Z := z mod 2 ^ 8.

(** The port of a pair: [InetSocketAddress (address, 9000 + appNumber)],
    with [appNumber] an 8-bit parameter, the sum an [int] and the port of an
    [InetSocketAddress] 16-bit. [main] passes the 32-bit loop counter [i] as
    [appNumber]. *)
Definition InstallApplications_port (appNumber : Z) : Z :=
  wrap16 (9000 + appNumber).

Definition main_application_port (i : Z) : Z :=
  InstallApplications_port (wrap8 i).

(** The loop that prints the column names "Pair (i + 1)" in "Print Output":
    [for (uint8_t i = 0; i < communicationPairList.size (); i++)]. The
    counter is 8-bit and wraps; [i + 1] is an [int]. The loop is run with
    fuel: [None] when the fuel does not suffice to leave it. *)
Fixpoint main_header_columns (fuel : nat) (i size : Z) (columns : list Z)
    : option (list Z) :=
  match fuel with
  | O => None
  | S fuel =>
      if i <? size
      then main_header_columns fuel (wrap8 (i + 1)) size (columns ++ [i + 1])
      else Some columns
  end.

(** * Vocabulary of the statements *)

(** The rate of a difference of byte counts, [delta * (double) 8 / 1e5]. *)
Definition delta_rate (delta : Z) : float :=
  PrimFloat.div (PrimFloat.mul (uint64_to_double delta) 8%float) 1e5%float.

(** The rate the sampler prints for a pair, and the record it leaves. *)
Definition sampled_rate (GetTotalRx : PacketSinkPtr → Z)
    (p : CommunicationPair) : float :=
  delta_rate (wrap64 (GetTotalRx (packetSink p) - totalRx p)).

Definition sampled_pair (GetTotalRx : PacketSinkPtr → Z)
    (p : CommunicationPair) : CommunicationPair :=
  mkCommunicationPair (srcApp p) (packetSink p) (GetTotalRx (packetSink p))
    (PrimFloat.add (throughput p) (sampled_rate GetTotalRx p)) (startTime p).

Definition last_printed_rates (st : State) : list float :=
  match last (cout st) with
  | Some (PlainThroughputLine _ rates _)
  | Some (CsvThroughputLine _ rates _) => rates
  | _ => []
  end.

(** The state after [main] has installed the applications of two stations
    (nodes 1 and 2) towards the access point (node 0). *)
Definition twoStations : State :=
  default initialState
    (main_install_applications [1%N; 2%N] 0%N 0%N initialState).

(** The sampler fired once for each element of [readings], which gives the
    sinks' counters at that firing. *)
Definition sample_ticks (readings : list (PacketSinkPtr → Z)) (st : State)
    : State :=
  foldl (λ st GetTotalRx, CalculateThroughput GetTotalRx st) st readings.

(** The history of one sink over the firings: the differences the sampler
    computes and the counter it stores last. *)
Fixpoint tick_deltas (sink : PacketSinkPtr) (lastTotalRx : Z)
    (readings : list (PacketSinkPtr → Z)) : list Z :=
  match readings with
  | [] => []
  | GetTotalRx :: rest =>
      wrap64 (GetTotalRx sink - lastTotalRx)
      :: tick_deltas sink (GetTotalRx sink) rest
  end.

Definition last_count (sink : PacketSinkPtr) (lastTotalRx : Z)
    (readings : list (PacketSinkPtr → Z)) : Z :=
  foldl (λ _ GetTotalRx, GetTotalRx sink) lastTotalRx readings.

(** The counter of [sink] stays in range and never decreases. *)
Fixpoint nondecreasing (sink : PacketSinkPtr) (lastTotalRx : Z)
    (readings : list (PacketSinkPtr → Z)) : Prop :=
  match readings with
  | [] => True
  | GetTotalRx :: rest =>
      lastTotalRx ≤ GetTotalRx sink < 2 ^ 64
      ∧ nondecreasing sink (GetTotalRx sink) rest
  end.

(** The counter of a peer as the callback reads it: a peer without an entry
    reads the value-initialised 0. *)
Definition counter_of (st : State) (address : Mac48Address) : Z :=
  default 0 (biCounter st !! address).

(** Station 7, associated to the access point 1, with nine beacon intervals
    counted and the default threshold of ten. *)
Definition nineIntervals : State :=
  set_biCounter {[7%N := 9]} initialState.

Definition snr_reported (type : WifiMacType) (st : State) : bool :=
  is_beamforming_frame type || (is_qosdata type && reportDataSnr st).

(** One access point (address 100, node 0) and one station (address 101,
    node 1), recorded by [main]. *)
Definition oneStationRegistry : State :=
  main_build_map_Mac2ID [mkWifiNetDevice 100 0] [mkWifiNetDevice 101 1]
    initialState.

(** The state in which a callback leaves the run, returned or aborted. *)
Definition outcome_state (o : Outcome) : State :=
  match o with
  | Returned st => st
  | FatalError _ st => st
  end.

(** A station's beacon intervals one after the other; each element of [macs]
    is the station's MAC as it is at that interval (associated or not, with
    its BSSID). *)
Definition beacon_intervals (macs : list DmgWifiMac) (address : Mac48Address)
    (st : State) : State :=
  foldl (λ st mac, DataTransmissionIntervalStarted mac address st) st macs.

(** A received frame as [MacRxOk] gets it: the receiving MAC, the frame
    type, the transmitter's address and the SNR. *)
Definition Frame : Type := DmgWifiMac * WifiMacType * N * float.

Definition frames_received (frames : list Frame) (st : State) : State :=
  foldl (λ st f, MacRxOk f.1.1.1 f.1.1.2 f.1.2 f.2 st) st frames.

Definition frame_row (t : Time) (f : Frame) : SnrRow :=
  mkSnrRow t f.1.2 (GetAddress f.1.1.1) f.2.

(** The index a lookup in the registry yields: 0 for a missing key. *)
Definition registry_index (st : State) (address : Mac48Address) : Z :=
  default 0 (map_Mac2ID st !! address).

(** * Properties *)

(** ** The sampler's loop *)

Lemma wrap64_nonneg (z : Z) : 0 ≤ wrap64 z.
Proof. unfold wrap64. apply Z.mod_pos_bound. lia. Qed.

Lemma wrap64_small (z : Z) : 0 ≤ z < 2 ^ 64 → wrap64 z = z.
Proof. intros Hz. unfold wrap64. by apply Z.mod_small. Qed.

Lemma entries_Permutation (m : gmap N CommunicationPair) :
  entries m ≡ₚ map_to_list m.
Proof. unfold entries. apply merge_sort_Permutation. Qed.

Lemma elem_of_entries (m : gmap N CommunicationPair) k p :
  (k, p) ∈ entries m ↔ m !! k = Some p.
Proof. rewrite entries_Permutation. apply elem_of_map_to_list. Qed.

Lemma NoDup_fst_entries (m : gmap N CommunicationPair) :
  NoDup (entries m).*1.
Proof. rewrite entries_Permutation. apply NoDup_fst_map_to_list. Qed.

Section sampler_loop.
Variable GetTotalRx : PacketSinkPtr → Z.

Lemma sampler_body_eq pairs printed totalThr it :
  sampler_body GetTotalRx (pairs, printed, totalThr) it =
    (<[it.1 := sampled_pair GetTotalRx it.2]> pairs,
     printed ++ [sampled_rate GetTotalRx it.2],
     PrimFloat.add totalThr (sampled_rate GetTotalRx it.2)).
Proof. reflexivity. Qed.

Lemma sampler_loop_printed l : ∀ pairs printed totalThr,
  (foldl (sampler_body GetTotalRx) (pairs, printed, totalThr) l).1.2 =
    printed ++ ((sampled_rate GetTotalRx ∘ snd) <$> l).
Proof.
  induction l as [|it l IH]; intros pairs printed totalThr; cbn [foldl].
  - by rewrite app_nil_r.
  - rewrite sampler_body_eq, IH, <- app_assoc. reflexivity.
Qed.

Lemma sampler_loop_other l : ∀ pairs printed totalThr k,
  k ∉ l.*1 →
  (foldl (sampler_body GetTotalRx) (pairs, printed, totalThr) l).1.1 !! k =
    pairs !! k.
Proof.
  induction l as [|it l IH]; intros pairs printed totalThr k Hk; cbn [foldl].
  - reflexivity.
  - rewrite sampler_body_eq. rewrite fmap_cons, not_elem_of_cons in Hk.
    destruct Hk as [Hne Hk]. rewrite IH by done.
    by rewrite lookup_insert_ne.
Qed.

Lemma sampler_loop_visited l : ∀ pairs printed totalThr k p,
  NoDup l.*1 → (k, p) ∈ l →
  (foldl (sampler_body GetTotalRx) (pairs, printed, totalThr) l).1.1 !! k =
    Some (sampled_pair GetTotalRx p).
Proof.
  induction l as [|it l IH]; intros pairs printed totalThr k p Hnd Hin.
  - by apply elem_of_nil in Hin.
  - cbn [foldl]. rewrite sampler_body_eq. rewrite fmap_cons in Hnd.
    apply NoDup_cons in Hnd as [Hfresh Hnd].
    apply elem_of_cons in Hin as [<-|Hin].
    + simpl in *. rewrite sampler_loop_other by done.
      apply lookup_insert_eq.
    + by apply IH.
Qed.
End sampler_loop.

Lemma CalculateThroughput_eq GetTotalRx st :
  CalculateThroughput GetTotalRx st =
    let loop := foldl (sampler_body GetTotalRx)
                  (communicationPairList st, [], 0%float)
                  (entries (communicationPairList st)) in
    Simulator_Schedule (MilliSeconds 100) EvCalculateThroughput
      (set_cout
         (cout st ++
            [if csv st then CsvThroughputLine (Now st) loop.1.2 loop.2
             else PlainThroughputLine (Now st) loop.1.2 loop.2])
         (set_communicationPairList loop.1.1 st)).
Proof.
  unfold CalculateThroughput.
  destruct (foldl _ _ _) as [[pairs printed] totalThr]. reflexivity.
Qed.

Lemma CalculateThroughput_pairs GetTotalRx st k :
  communicationPairList (CalculateThroughput GetTotalRx st) !! k =
    sampled_pair GetTotalRx <$> communicationPairList st !! k.
Proof.
  rewrite CalculateThroughput_eq. simpl.
  destruct (communicationPairList st !! k) as [p|] eqn:Hk; simpl.
  - apply sampler_loop_visited; [apply NoDup_fst_entries|].
    by apply elem_of_entries.
  - rewrite sampler_loop_other; [done|].
    intros ([k' p] & -> & Hin)%list_elem_of_fmap.
    apply elem_of_entries in Hin. simpl in Hk. congruence.
Qed.

Lemma CalculateThroughput_printed GetTotalRx st :
  last_printed_rates (CalculateThroughput GetTotalRx st) =
    (sampled_rate GetTotalRx ∘ snd) <$> entries (communicationPairList st).
Proof.
  rewrite CalculateThroughput_eq. unfold last_printed_rates. simpl.
  rewrite last_snoc, sampler_loop_printed. by destruct (csv st).
Qed.

(** ** One sample tick *)

(** C1. At a sample tick, for every registered pair: the rate printed for the
    pair is [(GetTotalRx - totalRx) * 8 / 1e5], computed as the source does
    (the difference in 64-bit unsigned arithmetic, then double arithmetic);
    the difference is never negative and is the plain difference when the
    sink's counter has not decreased; afterwards the stored [totalRx] is the
    sink's counter and [throughput] is the old sum plus the printed rate. *)
Theorem sampler_tick_pair (GetTotalRx : PacketSinkPtr → Z) (st : State)
    (node : NodePtr) (pair : CommunicationPair) :
  communicationPairList st !! node = Some pair →
  let st' := CalculateThroughput GetTotalRx st in
  let delta := wrap64 (GetTotalRx (packetSink pair) - totalRx pair) in
  let rate :=
    PrimFloat.div (PrimFloat.mul (uint64_to_double delta) 8%float) 1e5%float in
  (∃ i, entries (communicationPairList st) !! i = Some (node, pair)
        ∧ last_printed_rates st' !! i = Some rate)
  ∧ 0 ≤ delta
  ∧ (0 ≤ totalRx pair ≤ GetTotalRx (packetSink pair)
     → GetTotalRx (packetSink pair) < 2 ^ 64
     → delta = GetTotalRx (packetSink pair) - totalRx pair)
  ∧ communicationPairList st' !! node =
      Some (mkCommunicationPair (srcApp pair) (packetSink pair)
              (GetTotalRx (packetSink pair))
              (PrimFloat.add (throughput pair) rate) (startTime pair)).
Proof.
  intros Hpair st' delta rate. repeat split.
  - apply elem_of_entries, list_elem_of_lookup in Hpair as [i Hi].
    exists i. split; [done|]. subst st'.
    rewrite CalculateThroughput_printed, list_lookup_fmap, Hi. reflexivity.
  - apply wrap64_nonneg.
  - intros Hmono Hmax. subst delta. apply wrap64_small. lia.
  - subst st'. rewrite CalculateThroughput_pairs, Hpair. reflexivity.
Qed.

Lemma sampler_tick_pair_witness :
  communicationPairList (CalculateThroughput (λ _, 10000) twoStations) !! 1%N =
    Some (mkCommunicationPair 0 1 10000
            (PrimFloat.div (PrimFloat.mul 10000 8) 1e5) 0).
Proof.
  exact (proj2 (proj2 (proj2
           (sampler_tick_pair (λ _, 10000) twoStations 1%N
              (mkCommunicationPair 0 1 0 0 0) eq_refl)))).
Defined.

(** ** Sequences of sample ticks *)

Lemma sample_ticks_cons GetTotalRx rest st :
  sample_ticks (GetTotalRx :: rest) st =
    sample_ticks rest (CalculateThroughput GetTotalRx st).
Proof. reflexivity. Qed.

Lemma sample_ticks_pair readings : ∀ st node pair,
  communicationPairList st !! node = Some pair →
  communicationPairList (sample_ticks readings st) !! node =
    Some (mkCommunicationPair (srcApp pair) (packetSink pair)
            (last_count (packetSink pair) (totalRx pair) readings)
            (foldl PrimFloat.add (throughput pair)
               (delta_rate <$>
                  tick_deltas (packetSink pair) (totalRx pair) readings))
            (startTime pair)).
Proof.
  induction readings as [|GetTotalRx rest IH]; intros st node pair Hpair.
  - by destruct pair.
  - rewrite sample_ticks_cons.
    rewrite (IH _ node (sampled_pair GetTotalRx pair)).
    + reflexivity.
    + by rewrite CalculateThroughput_pairs, Hpair.
Qed.

Lemma tick_deltas_telescope sink readings : ∀ lastTotalRx,
  0 ≤ lastTotalRx → nondecreasing sink lastTotalRx readings →
  foldr Z.add 0 (tick_deltas sink lastTotalRx readings) =
    last_count sink lastTotalRx readings - lastTotalRx.
Proof.
  induction readings as [|GetTotalRx rest IH]; intros lastTotalRx Hpos Hmono.
  - unfold last_count. simpl. lia.
  - destruct Hmono as [Hstep Hmono]. cbn [tick_deltas foldr].
    rewrite IH by (done || lia). rewrite wrap64_small by lia.
    unfold last_count. cbn [foldl]. lia.
Qed.

(** C10, as the code has it. From a fresh record ([totalRx] 0, [throughput]
    0), after any sequence of sample ticks: the stored [totalRx] is the last
    counter read; [throughput] is the sum, accumulated tick by tick in double
    arithmetic, of the per-tick rates [delta * 8 / 1e5]; and the per-tick
    differences of a counter that never decreases add up exactly to the
    stored [totalRx]. *)
Theorem running_sum_after_ticks (readings : list (PacketSinkPtr → Z))
    (st : State) (node : NodePtr) (pair : CommunicationPair) :
  communicationPairList st !! node = Some pair →
  totalRx pair = 0 → throughput pair = 0%float →
  ∃ pair',
    communicationPairList (sample_ticks readings st) !! node = Some pair'
    ∧ totalRx pair' = last_count (packetSink pair) 0 readings
    ∧ throughput pair' =
        foldl PrimFloat.add 0%float
          (delta_rate <$> tick_deltas (packetSink pair) 0 readings)
    ∧ (nondecreasing (packetSink pair) 0 readings →
       foldr Z.add 0 (tick_deltas (packetSink pair) 0 readings)
       = totalRx pair').
Proof.
  intros Hpair Hrx Hthr. eexists. split; [by apply sample_ticks_pair|].
  cbn [totalRx throughput]. rewrite Hrx, Hthr. repeat split.
  intros Hmono. rewrite tick_deltas_telescope by done. lia.
Qed.

Lemma running_sum_after_ticks_witness :
  ∃ pair',
    communicationPairList
      (sample_ticks [λ _, 10000; λ _, 20000; λ _, 30000] twoStations) !! 1%N
    = Some pair'
    ∧ totalRx pair' = 30000
    ∧ throughput pair' =
        PrimFloat.add (PrimFloat.add (PrimFloat.add 0 (delta_rate 10000))
                         (delta_rate 10000)) (delta_rate 10000)
    ∧ 10000 + (10000 + (10000 + 0)) = totalRx pair'.
Proof.
  destruct (running_sum_after_ticks
              [λ _, 10000; λ _, 20000; λ _, 30000] twoStations 1%N
              (mkCommunicationPair 0 1 0 0 0) eq_refl eq_refl eq_refl)
    as (pair' & Hlookup & Hrx & Hthr & Hsum).
  exists pair'. split; [exact Hlookup|]. split; [exact Hrx|].
  split; [exact Hthr|]. apply Hsum. simpl. lia.
Defined.

(** C10, as stated, fails: three ticks with 10000 bytes received before
    each leave [throughput] at 0.8 + 0.8 + 0.8 in double arithmetic, which
    is not the double 30000 * 8 / 1e5. *)
Lemma running_sum_not_scaled_total :
  ¬ (∀ (readings : list (PacketSinkPtr → Z)) (st : State) (node : NodePtr)
       (pair pair' : CommunicationPair),
       communicationPairList st !! node = Some pair →
       totalRx pair = 0 → throughput pair = 0%float →
       communicationPairList (sample_ticks readings st) !! node = Some pair' →
       throughput pair' = delta_rate (totalRx pair')).
Proof.
  intros Hclaim.
  pose proof (sample_ticks_pair [λ _, 10000; λ _, 20000; λ _, 30000]
                twoStations 1%N (mkCommunicationPair 0 1 0 0 0) eq_refl)
    as Hlookup.
  specialize (Hclaim _ twoStations 1%N (mkCommunicationPair 0 1 0 0 0) _
                eq_refl eq_refl eq_refl Hlookup).
  apply (f_equal (λ x, PrimFloat.eqb x (delta_rate 30000))) in Hclaim.
  vm_compute in Hclaim. discriminate Hclaim.
Qed.

(** ** Re-arming of the sampler *)

Lemma CalculateThroughput_pendingEvents GetTotalRx st :
  pendingEvents (CalculateThroughput GetTotalRx st) =
    insert_event (Now st + 100000000, EvCalculateThroughput)
      (pendingEvents st).
Proof. rewrite CalculateThroughput_eq. reflexivity. Qed.

Lemma CalculateThroughput_Now GetTotalRx st :
  Now (CalculateThroughput GetTotalRx st) = Now st.
Proof. rewrite CalculateThroughput_eq. reflexivity. Qed.

Lemma sampler_chain GetTotalRx_at (n : nat) : ∀ st,
  pendingEvents st = [(Now st + samplingPeriod, EvCalculateThroughput)] →
  ∃ st', Simulator_Invoke n GetTotalRx_at st = Some st'
         ∧ Now st' = Now st + Z.of_nat n * samplingPeriod
         ∧ pendingEvents st' =
             [(Now st' + samplingPeriod, EvCalculateThroughput)].
Proof.
  induction n as [|n IH]; intros st Hq.
  - exists st. repeat split; [lia | done].
  - cbn [Simulator_Invoke]. unfold Simulator_InvokeNext. rewrite Hq.
    set (st1 := CalculateThroughput _ _).
    destruct (IH st1) as (st' & Hrun & Hnow & Hq').
    + subst st1.
      rewrite CalculateThroughput_pendingEvents, CalculateThroughput_Now.
      reflexivity.
    + exists st'. split; [done|]. split; [|done].
      rewrite Hnow. subst st1. rewrite CalculateThroughput_Now.
      cbn [Now set_pendingEvents set_Now]. lia.
Qed.

(** C9. Every firing of the sampler, whatever the output mode and the
    pairs, leaves the clock where it was and queues exactly one further
    firing for [Now + 100 ms]. Hence, from the first firing that [main]
    schedules 100 ms after the start, the [n]-th firing runs [n] periods
    after the start and leaves the next one queued one period later, for
    every [n]. *)
Theorem sampler_rearms (GetTotalRx : PacketSinkPtr → Z)
    (GetTotalRx_at : Time → PacketSinkPtr → Z) (st : State) (n : nat) :
  (Now (CalculateThroughput GetTotalRx st) = Now st
   ∧ pendingEvents (CalculateThroughput GetTotalRx st) =
       insert_event (Now st + 100000000, EvCalculateThroughput)
         (pendingEvents st)
   ∧ length (pendingEvents (CalculateThroughput GetTotalRx st)) =
       S (length (pendingEvents st)))
  ∧ ∃ st',
      Simulator_Invoke n GetTotalRx_at
        (main_schedule_throughput (set_pendingEvents [] st)) = Some st'
      ∧ Now st' = Now st + Z.of_nat n * 100000000
      ∧ pendingEvents st' =
          [(Now st + (Z.of_nat n + 1) * 100000000, EvCalculateThroughput)].
Proof.
  split.
  - rewrite CalculateThroughput_Now, CalculateThroughput_pendingEvents.
    repeat split. generalize (Now st + 100000000, EvCalculateThroughput).
    intros e. induction (pendingEvents st) as [|e' q IH]; [done|].
    cbn [insert_event]. destruct (e.1 <? e'.1); cbn [length]; congruence.
  - destruct (sampler_chain GetTotalRx_at n
                (main_schedule_throughput (set_pendingEvents [] st)))
      as (st' & Hrun & Hnow & Hq); [reflexivity|].
    exists st'. split; [done|]. cbn [Now main_schedule_throughput] in Hnow.
    change (Now (main_schedule_throughput (set_pendingEvents [] st)))
      with (Now st) in Hnow.
    change samplingPeriod with 100000000 in *.
    split; [done|]. rewrite Hq, Hnow. f_equal. f_equal. lia.
Qed.

(** ** Beam-retraining trigger *)

Lemma map_subscript_value (m : gmap N Z) k :
  (map_subscript m k).1 = default 0 (m !! k).
Proof. unfold map_subscript. by destruct (m !! k). Qed.

Lemma map_subscript_lookup (m : gmap N Z) k k' :
  (map_subscript m k).2 !! k' =
    if decide (k = k') then Some (default 0 (m !! k)) else m !! k'.
Proof.
  unfold map_subscript. case_decide as Hk.
  - subst k'. destruct (m !! k) eqn:Hm; simpl; [done|].
    by rewrite lookup_insert_eq.
  - destruct (m !! k) eqn:Hm; simpl; [done|]. by rewrite lookup_insert_ne.
Qed.

Lemma map_subscript_present (m : gmap N Z) k v :
  m !! k = Some v → map_subscript m k = (v, m).
Proof. intros Hk. unfold map_subscript. by rewrite Hk. Qed.

Lemma DataTransmissionIntervalStarted_associated wifiMac address st :
  IsAssociated wifiMac = true →
  DataTransmissionIntervalStarted wifiMac address st =
    let counter := wrap16 (counter_of st address + 1) in
    let counters := (map_subscript (biCounter st) address).2 in
    if counter =? biThreshold st then
      set_biCounter (<[address := 0]> counters)
        (set_txssCbapRequests
           (txssCbapRequests st ++ [(GetAddress wifiMac, GetBssid wifiMac)])
           st)
    else set_biCounter (<[address := counter]> counters) st.
Proof.
  intros Hassoc. unfold DataTransmissionIntervalStarted, counter_of.
  rewrite Hassoc, <- map_subscript_value.
  destruct (map_subscript (biCounter st) address) as [c counters]. simpl.
  by destruct (wrap16 (c + 1) =? biThreshold st).
Qed.

(** C2. A beacon-interval start for a peer that is not associated leaves the
    whole state as it was: no counter moves and no sweep is requested. For an
    associated peer whose counter is below the threshold, the counter goes up
    by one and nothing is requested, unless that reaches the threshold: then
    exactly one sweep towards the peer's BSSID is requested and the counter
    is stored as 0. Either way the stored counter stays below the threshold,
    and no other peer's counter changes. *)
Theorem retrain_counter_step (wifiMac : DmgWifiMac) (address : Mac48Address)
    (st : State) :
  let st' := DataTransmissionIntervalStarted wifiMac address st in
  (IsAssociated wifiMac = false → st' = st)
  ∧ (IsAssociated wifiMac = true →
     0 < biThreshold st < 2 ^ 16 →
     0 ≤ counter_of st address < biThreshold st →
     (if decide (counter_of st address + 1 = biThreshold st) then
        biCounter st' !! address = Some 0
        ∧ txssCbapRequests st' =
            txssCbapRequests st ++ [(GetAddress wifiMac, GetBssid wifiMac)]
      else
        biCounter st' !! address = Some (counter_of st address + 1)
        ∧ txssCbapRequests st' = txssCbapRequests st)
     ∧ (∀ other, other ≠ address →
          biCounter st' !! other = biCounter st !! other)
     ∧ biThreshold st' = biThreshold st
     ∧ 0 ≤ counter_of st' address < biThreshold st').
Proof.
  intros st'. subst st'. split.
  { intros Hassoc. unfold DataTransmissionIntervalStarted. by rewrite Hassoc. }
  intros Hassoc Hthr Hc.
  rewrite DataTransmissionIntervalStarted_associated by done. cbn zeta.
  assert (wrap16 (counter_of st address + 1) = counter_of st address + 1)
    as ->.
  { unfold wrap16. apply Z.mod_small. lia. }
  set (c := counter_of st address) in *.
  destruct (Z.eqb_spec (c + 1) (biThreshold st))
    as [Hreach|Hbelow]; case_decide; try done.
  - unfold counter_of.
    cbn [biCounter set_biCounter biThreshold txssCbapRequests
         set_txssCbapRequests].
    rewrite lookup_insert_eq. repeat split; try done; simpl; try lia.
    intros other Hne. rewrite lookup_insert_ne by done.
    rewrite map_subscript_lookup. by case_decide.
  - unfold counter_of.
    cbn [biCounter set_biCounter biThreshold txssCbapRequests].
    rewrite lookup_insert_eq. repeat split; try done; simpl; try lia.
    intros other Hne. rewrite lookup_insert_ne by done.
    rewrite map_subscript_lookup. by case_decide.
Qed.

Lemma retrain_counter_step_witness :
  let st' :=
    DataTransmissionIntervalStarted (mkDmgWifiMac 7 true 1 DMG_STA) 7%N
      nineIntervals in
  biCounter st' !! 7%N = Some 0 ∧ txssCbapRequests st' = [(7%N, 1%N)].
Proof.
  pose proof (retrain_counter_step (mkDmgWifiMac 7 true 1 DMG_STA) 7%N
                nineIntervals) as [_ H].
  destruct H as [H _];
    [reflexivity | vm_compute; done | vm_compute; split; congruence|].
  exact H.
Defined.

(** ** Association and deassociation *)

Lemma print_unless_csv_pairs line st :
  communicationPairList (print_unless_csv line st) = communicationPairList st.
Proof. unfold print_unless_csv. by destruct (csv st). Qed.

Lemma print_unless_csv_commands line st :
  applicationCommands (print_unless_csv line st) = applicationCommands st.
Proof. unfold print_unless_csv. by destruct (csv st). Qed.

Lemma print_unless_csv_Now line st : Now (print_unless_csv line st) = Now st.
Proof. unfold print_unless_csv. by destruct (csv st). Qed.

Lemma StationAssoicated_found node staWifiMac address aid st pair :
  communicationPairList st !! node = Some pair →
  StationAssoicated node staWifiMac address aid st =
    let st0 := print_unless_csv
                 (AssociatedLine (GetAddress staWifiMac) address aid) st in
    Returned
      (set_applicationCommands
         (applicationCommands st ++ [(srcApp pair, StartApplication)])
         (set_communicationPairList
            (<[node := mkCommunicationPair (srcApp pair) (packetSink pair)
                         (totalRx pair) (throughput pair) (Now st)]>
               (communicationPairList st)) st0)).
Proof.
  intros Hpair. unfold StationAssoicated.
  rewrite print_unless_csv_pairs, Hpair, print_unless_csv_commands,
    print_unless_csv_Now. reflexivity.
Qed.

Lemma StationDeassoicated_found node staWifiMac address st pair :
  communicationPairList st !! node = Some pair →
  StationDeassoicated node staWifiMac address st =
    let st0 := print_unless_csv
                 (DeassociatedLine (GetAddress staWifiMac) address) st in
    Returned
      (set_applicationCommands
         (applicationCommands st ++ [(srcApp pair, StopApplication)]) st0).
Proof.
  intros Hpair. unfold StationDeassoicated.
  rewrite print_unless_csv_pairs, Hpair, print_unless_csv_commands.
  reflexivity.
Qed.

(** C3. For a peer with a registered pair, every call of [StationAssoicated]
    returns, stores the current simulation time as the pair's [startTime]
    (changing nothing else of the pair) and starts the pair's source
    application. [StationDeassoicated] stops the application and keeps the
    record, so that a later association at time [t2] overwrites the stored
    start time with [t2] and starts the application again. *)
Theorem association_restarts (node : NodePtr) (staWifiMac : DmgWifiMac)
    (address : Mac48Address) (aid : Z) (st : State)
    (pair : CommunicationPair) (t2 : Time) :
  communicationPairList st !! node = Some pair →
  let started t :=
    mkCommunicationPair (srcApp pair) (packetSink pair) (totalRx pair)
      (throughput pair) t in
  ∃ st1 st2 st3,
    StationAssoicated node staWifiMac address aid st = Returned st1
    ∧ communicationPairList st1 !! node = Some (started (Now st))
    ∧ applicationCommands st1 =
        applicationCommands st ++ [(srcApp pair, StartApplication)]
    ∧ StationDeassoicated node staWifiMac address st1 = Returned st2
    ∧ communicationPairList st2 !! node = Some (started (Now st))
    ∧ StationAssoicated node staWifiMac address aid (set_Now t2 st2)
      = Returned st3
    ∧ communicationPairList st3 !! node = Some (started t2)
    ∧ applicationCommands st3 =
        applicationCommands st
        ++ [(srcApp pair, StartApplication); (srcApp pair, StopApplication);
            (srcApp pair, StartApplication)].
Proof.
  intros Hpair started.
  pose proof (StationAssoicated_found node staWifiMac address aid st pair
                Hpair) as Hrun1.
  cbn zeta in Hrun1.
  match type of Hrun1 with _ = Returned ?s => set (st1 := s) in * end.
  assert (communicationPairList st1 !! node = Some (started (Now st)))
    as Hpair1 by apply lookup_insert_eq.
  pose proof (StationDeassoicated_found node staWifiMac address st1 _ Hpair1)
    as Hrun2.
  cbn zeta in Hrun2.
  match type of Hrun2 with _ = Returned ?s => set (st2 := s) in * end.
  assert (communicationPairList (set_Now t2 st2) !! node
          = Some (started (Now st))) as Hpair2.
  { subst st2. cbn [communicationPairList set_applicationCommands set_Now].
    by rewrite print_unless_csv_pairs. }
  pose proof (StationAssoicated_found node staWifiMac address aid _ _ Hpair2)
    as Hrun3.
  cbn zeta in Hrun3.
  match type of Hrun3 with _ = Returned ?s => set (st3 := s) in * end.
  exists st1, st2, st3.
  split; [exact Hrun1|]. split; [exact Hpair1|]. split; [reflexivity|].
  split; [exact Hrun2|]. split.
  { subst st2. cbn [communicationPairList set_applicationCommands].
    by rewrite print_unless_csv_pairs. }
  split; [exact Hrun3|]. split; [apply lookup_insert_eq|].
  subst st3 st2 st1.
  cbn [applicationCommands set_applicationCommands set_Now srcApp started].
  by rewrite <- !app_assoc.
Qed.

Lemma association_restarts_witness :
  ∃ st3,
    StationAssoicated 1%N (mkDmgWifiMac 7 true 9 DMG_STA) 9%N 1
      (set_Now 5000
         (match StationDeassoicated 1%N (mkDmgWifiMac 7 true 9 DMG_STA) 9%N
                  (match StationAssoicated 1%N (mkDmgWifiMac 7 true 9 DMG_STA)
                           9%N 1 (set_Now 1000 twoStations) with
                   | Returned st1 => st1
                   | FatalError _ st1 => st1
                   end) with
          | Returned st2 => st2
          | FatalError _ st2 => st2
          end)) = Returned st3
    ∧ communicationPairList st3 !! 1%N =
        Some (mkCommunicationPair 0 1 0 0 5000)
    ∧ applicationCommands st3 =
        [(0%N, StartApplication); (0%N, StopApplication);
         (0%N, StartApplication)].
Proof.
  destruct (association_restarts 1%N (mkDmgWifiMac 7 true 9 DMG_STA) 9%N 1
              (set_Now 1000 twoStations) (mkCommunicationPair 0 1 0 0 0)
              5000 eq_refl)
    as (st1 & st2 & st3 & H1 & _ & _ & H2 & _ & H3 & Hp & Hc).
  exists st3. rewrite H1, H2. split; [exact H3|]. split; [exact Hp|exact Hc].
Defined.

(** C4. [StationAssoicated] and [StationDeassoicated] end in a fatal error
    exactly when no pair is registered for the node: the outcome depends on
    the lookup in [communicationPairList] alone, whatever the other
    arguments and the rest of the state. *)
Theorem unregistered_is_fatal (node : NodePtr) (staWifiMac : DmgWifiMac)
    (address : Mac48Address) (aid : Z) (st : State) :
  (communicationPairList st !! node = None
   ↔ ∃ msg st', StationAssoicated node staWifiMac address aid st
                = FatalError msg st')
  ∧ (communicationPairList st !! node = None
     ↔ ∃ msg st', StationDeassoicated node staWifiMac address st
                  = FatalError msg st').
Proof.
  unfold StationAssoicated, StationDeassoicated.
  rewrite !print_unless_csv_pairs.
  destruct (communicationPairList st !! node) as [pair|]; split; split;
    try done; try (intros (msg & st' & Hrun); discriminate Hrun);
    intros _; eauto.
Qed.

(** ** Registration of pairs *)

Lemma main_install_pair_installed src dst address i st :
  applicationType st = "onoff" ∨ applicationType st = "bulk" →
  main_install_pair src dst address i st =
    Some (set_communicationPairList
            (<[src := mkCommunicationPair (nextApplication st)
                        (nextApplication st + 1)%N 0 0%float 0]>
               (communicationPairList st))
            (set_nextApplication (nextApplication st + 2)%N st)).
Proof.
  intros Htype. unfold main_install_pair, InstallApplications.
  destruct Htype as [-> | ->]; reflexivity.
Qed.

(** C6, as the code has it. Registration does not look for an existing
    pair and never fails because of one: with a known application type it
    stores the fresh record under the source node, in place of the record
    the node had, if any. The table keeps one record per source node: the
    other nodes' records are untouched and the number of records grows only
    when the node had none. *)
Theorem registration_overwrites (src dst : NodePtr) (address : N) (i : Z)
    (st : State) :
  applicationType st = "onoff" ∨ applicationType st = "bulk" →
  ∃ st',
    main_install_pair src dst address i st = Some st'
    ∧ communicationPairList st' !! src =
        Some (mkCommunicationPair (nextApplication st)
                (nextApplication st + 1)%N 0 0%float 0)
    ∧ (∀ other, other ≠ src →
         communicationPairList st' !! other = communicationPairList st !! other)
    ∧ size (communicationPairList st') =
        if decide (is_Some (communicationPairList st !! src))
        then size (communicationPairList st)
        else S (size (communicationPairList st)).
Proof.
  intros Htype. eexists. split; [by apply main_install_pair_installed|].
  cbn [communicationPairList set_communicationPairList set_nextApplication].
  split; [apply lookup_insert_eq|]. split.
  - intros other Hne. by apply lookup_insert_ne.
  - case_decide as Hsome.
    + destruct Hsome as [old Hold].
      rewrite <- (insert_delete_id _ _ _ Hold) at 2.
      rewrite <- insert_delete_eq.
      rewrite !map_size_insert_None by apply lookup_delete_eq. done.
    + apply map_size_insert_None. by apply eq_None_not_Some.
Qed.

Lemma registration_overwrites_witness :
  ∃ st',
    main_install_pair 1%N 0%N 0%N 0 twoStations = Some st'
    ∧ communicationPairList st' !! 1%N =
        Some (mkCommunicationPair 4 5 0 0%float 0)
    ∧ size (communicationPairList st') = 2%nat.
Proof.
  destruct (registration_overwrites 1%N 0%N 0%N 0 twoStations)
    as (st' & Hrun & Hnew & _ & Hsize); [by left|].
  exists st'. split; [exact Hrun|]. split; [exact Hnew|exact Hsize].
Defined.

(** C6, as stated, fails: node 1 already has a pair in [twoStations], and
    registering it again succeeds and replaces the record. *)
Lemma registration_does_not_fail :
  communicationPairList twoStations !! 1%N =
    Some (mkCommunicationPair 0 1 0 0%float 0)
  ∧ ∃ st',
      main_install_pair 1%N 0%N 0%N 0 twoStations = Some st'
      ∧ communicationPairList st' !! 1%N =
          Some (mkCommunicationPair 4 5 0 0%float 0).
Proof. split; [reflexivity|]. eexists. split; reflexivity. Qed.

(** ** Signal-quality trace *)

Lemma MacRxOk_reported WifiMac type address snrValue st :
  MacRxOk WifiMac type address snrValue st =
    if snr_reported type st then
      set_snrStream
        (snrStream st
         ++ [mkSnrRow (Now st) address (GetAddress WifiMac) snrValue]) st
    else st.
Proof.
  unfold MacRxOk, snr_reported. by destruct type, (reportDataSnr st).
Qed.

Lemma snr_reported_spec type st :
  snr_reported type st = true
  ↔ type = WIFI_MAC_EXTENSION_DMG_BEACON ∨ type = WIFI_MAC_CTL_DMG_SSW
    ∨ type = WIFI_MAC_CTL_DMG_SSW_FBCK ∨ type = WIFI_MAC_CTL_DMG_SSW_ACK
    ∨ (type = WIFI_MAC_QOSDATA ∧ reportDataSnr st = true).
Proof.
  unfold snr_reported. split.
  - destruct type; simpl; intros Hrep; try discriminate Hrep; auto 6.
  - intros [-> | [-> | [-> | [-> | [-> Hflag]]]]]; simpl; auto.
Qed.

(** C7, as the code has it. [MacRxOk] appends exactly one row
    [(Now, transmitter, receiver, snr)] to the SNR stream when the frame is
    a DMG beacon, an SSW, an SSW feedback or an SSW acknowledgment, or when
    it is a QoS data frame ([WIFI_MAC_QOSDATA]) and [reportDataSnr] is set;
    in every other case, data frames that are not QoS data included, it
    changes nothing. *)
Theorem snr_row_filter (WifiMac : DmgWifiMac) (type : WifiMacType)
    (address : Mac48Address) (snrValue : float) (st : State) :
  let reported :=
    type = WIFI_MAC_EXTENSION_DMG_BEACON ∨ type = WIFI_MAC_CTL_DMG_SSW
    ∨ type = WIFI_MAC_CTL_DMG_SSW_FBCK ∨ type = WIFI_MAC_CTL_DMG_SSW_ACK
    ∨ (type = WIFI_MAC_QOSDATA ∧ reportDataSnr st = true) in
  let row := mkSnrRow (Now st) address (GetAddress WifiMac) snrValue in
  let st' := MacRxOk WifiMac type address snrValue st in
  (reported ↔ st' = set_snrStream (snrStream st ++ [row]) st)
  ∧ (¬ reported ↔ st' = st).
Proof.
  intros reported row st'. subst reported st'.
  rewrite <- snr_reported_spec, MacRxOk_reported.
  assert (st ≠ set_snrStream (snrStream st ++ [row]) st) as Hgrow.
  { intros Heq. apply (f_equal (length ∘ snrStream)) in Heq.
    simpl in Heq. rewrite length_app in Heq. simpl in Heq. lia. }
  destruct (snr_reported type st); split; split; done.
Qed.

(** C7, as stated, fails. Of the data frames the callback reports the QoS
    data frame only. The plain data frame [WIFI_MAC_DATA] and the other data
    frame types of [WifiMacType] are among the enumerators that [MacRxOk]
    does not name, and a frame of any of these leaves no row, although
    [reportDataSnr] is set (as it is by default). *)
Lemma data_frame_without_row :
  reportDataSnr initialState = true
  ∧ ∀ rank,
      MacRxOk (mkDmgWifiMac 100 true 100 DMG_AP) (WIFI_MAC_OTHER rank) 101%N
        25%float initialState
      = initialState.
Proof. split; [reflexivity|]. intros rank. reflexivity. Qed.

(** ** Peer registry and sector-sweep trace *)

Lemma main_map_devices_other devices : ∀ (m : gmap N Z) k,
  k ∉ GetMacAddress <$> devices → main_map_devices devices m !! k = m !! k.
Proof.
  induction devices as [|d rest IH]; intros m k Hk; [done|].
  rewrite fmap_cons, not_elem_of_cons in Hk. destruct Hk as [Hne Hk].
  cbn [main_map_devices]. rewrite IH by done. by apply lookup_insert_ne.
Qed.

Lemma main_map_devices_recorded devices : ∀ (m : gmap N Z) d,
  NoDup (GetMacAddress <$> devices) → d ∈ devices →
  main_map_devices devices m !! GetMacAddress d = Some (GetNodeId d).
Proof.
  induction devices as [|d0 rest IH]; intros m d Hnd Hd.
  - by apply elem_of_nil in Hd.
  - rewrite fmap_cons in Hnd. apply NoDup_cons in Hnd as [Hfresh Hnd].
    cbn [main_map_devices]. apply elem_of_cons in Hd as [->|Hd].
    + rewrite main_map_devices_other by done. apply lookup_insert_eq.
    + by apply IH.
Qed.

Lemma SLSCompleted_eq parameters address sectorId antennaId st :
  SLSCompleted parameters address sectorId antennaId st =
    let ids := (map_subscript (map_Mac2ID st) address).2 in
    let row :=
      mkSlsRow (wrap32 (srcNodeID parameters + 1))
        (wrap32 (default 0 (map_Mac2ID st !! address) + 1))
        (currentTraceIndex st) sectorId antennaId
        (GetTypeOfStation (wifiMac parameters))
        (wrap32 (default 0 (ids !! GetBssid (wifiMac parameters)) + 1))
        (Now st) in
    print_unless_csv
      (SlsLine (srcNodeID parameters) address sectorId antennaId)
      (set_slsStream (slsStream st ++ [row])
         (set_map_Mac2ID
            (map_subscript ids (GetBssid (wifiMac parameters))).2 st)).
Proof.
  unfold SLSCompleted. cbn zeta. unfold map_subscript.
  destruct (map_Mac2ID st !! address) as [dstIndex|]; cbn [fst snd default];
    destruct (_ !! GetBssid (wifiMac parameters)) as [bssIndex|];
    reflexivity.
Qed.

Lemma print_unless_csv_slsStream line st :
  slsStream (print_unless_csv line st) = slsStream st.
Proof. unfold print_unless_csv. by destruct (csv st). Qed.

Lemma print_unless_csv_map_Mac2ID line st :
  map_Mac2ID (print_unless_csv line st) = map_Mac2ID st.
Proof. unfold print_unless_csv. by destruct (csv st). Qed.

(** C5, as the code has it. The registry is read with the subscript
    operator, so a lookup never fails. [SLSCompleted] always returns and
    writes its row: for a recorded address the row shows the recorded index
    (plus 1) and the entry is left as it was; for an address that was not
    recorded the row shows index 0 (plus 1) and the address is inserted with
    index 0. No entry is removed or changed. *)
Theorem registry_lookup (parameters : Parameters) (address : Mac48Address)
    (sectorId antennaId : Z) (st : State) :
  let st' := SLSCompleted parameters address sectorId antennaId st in
  let queried k := k = address ∨ k = GetBssid (wifiMac parameters) in
  (∃ row, slsStream st' = slsStream st ++ [row]
          ∧ sls_DST_ID row
            = wrap32 (default 0 (map_Mac2ID st !! address) + 1)
          ∧ sls_BSS_ID row
            = wrap32 (default 0 (map_Mac2ID st
                                    !! GetBssid (wifiMac parameters)) + 1))
  ∧ (∀ k v, map_Mac2ID st !! k = Some v → map_Mac2ID st' !! k = Some v)
  ∧ (∀ k, map_Mac2ID st !! k = None →
       map_Mac2ID st' !! k = if decide (queried k) then Some 0 else None).
Proof.
  intros st' queried. subst st' queried. rewrite SLSCompleted_eq. cbn zeta.
  rewrite print_unless_csv_slsStream, print_unless_csv_map_Mac2ID.
  cbn [slsStream set_slsStream map_Mac2ID set_map_Mac2ID].
  assert (∀ k, (map_subscript (map_subscript (map_Mac2ID st) address).2
                  (GetBssid (wifiMac parameters))).2 !! k
               = if decide (k = address ∨ k = GetBssid (wifiMac parameters))
                 then Some (default 0 (map_Mac2ID st !! k))
                 else map_Mac2ID st !! k) as Hids.
  { intros k. rewrite !map_subscript_lookup.
    repeat case_decide; subst; try reflexivity;
      exfalso; intuition congruence. }
  split; [|split].
  - eexists. split; [reflexivity|]. cbn [sls_DST_ID sls_BSS_ID].
    split; [reflexivity|]. rewrite map_subscript_lookup.
    case_decide as Heq; [|done]. by rewrite Heq.
  - intros k v Hk. rewrite Hids, Hk. by case_decide.
  - intros k Hk. rewrite Hids, Hk. done.
Qed.

(** C5, as stated, fails: address 999 was not recorded, yet the callback
    that looks it up returns, shows it as peer 0 + 1, and leaves it inserted
    in the registry. *)
Lemma registry_miss_is_not_fatal :
  let st' :=
    SLSCompleted (mkParameters 1 (mkDmgWifiMac 101 true 100 DMG_STA)) 999%N
      3 1 oneStationRegistry in
  map_Mac2ID oneStationRegistry !! 999%N = None
  ∧ sls_DST_ID <$> slsStream st' = [1]
  ∧ map_Mac2ID st' !! 999%N = Some 0.
Proof. repeat split. Qed.

(** C8. With the registry that [main] builds from devices with distinct
    addresses (node ids below 2^32 - 1), every row of the sector-sweep trace
    displays the reporting device, the responder and the reporter's BSSID
    as their registry index plus 1, whatever the number of devices. *)
Theorem sls_display_ids (apDevice staDevices : list WifiNetDevice)
    (st : State) (src responder coordinator : WifiNetDevice)
    (mac : DmgWifiMac) (sectorId antennaId : Z) :
  NoDup (GetMacAddress <$> apDevice ++ staDevices) →
  (∀ d, d ∈ apDevice ++ staDevices → 0 ≤ GetNodeId d < 2 ^ 32 - 1) →
  src ∈ apDevice ++ staDevices →
  responder ∈ apDevice ++ staDevices →
  coordinator ∈ apDevice ++ staDevices →
  GetBssid mac = GetMacAddress coordinator →
  let st0 := main_build_map_Mac2ID apDevice staDevices st in
  let st' :=
    SLSCompleted (main_parameters src mac) (GetMacAddress responder)
      sectorId antennaId st0 in
  ∃ isrc idst ibss row,
    map_Mac2ID st0 !! GetMacAddress src = Some isrc
    ∧ map_Mac2ID st0 !! GetMacAddress responder = Some idst
    ∧ map_Mac2ID st0 !! GetMacAddress coordinator = Some ibss
    ∧ slsStream st' = slsStream st0 ++ [row]
    ∧ sls_SRC_ID row = isrc + 1
    ∧ sls_DST_ID row = idst + 1
    ∧ sls_BSS_ID row = ibss + 1
    ∧ map_Mac2ID st' = map_Mac2ID st0.
Proof.
  intros Hnd Hids Hsrc Hresp Hcoord Hbssid st0 st'.
  assert (∀ d, d ∈ apDevice ++ staDevices →
            map_Mac2ID st0 !! GetMacAddress d = Some (GetNodeId d)) as Hreg.
  { intros d Hd. by apply main_map_devices_recorded. }
  assert (∀ z, 0 ≤ z < 2 ^ 32 - 1 → wrap32 (z + 1) = z + 1) as Hwrap.
  { intros z Hz. unfold wrap32. apply Z.mod_small. lia. }
  exists (GetNodeId src), (GetNodeId responder), (GetNodeId coordinator).
  subst st'. rewrite SLSCompleted_eq. cbn zeta.
  rewrite print_unless_csv_slsStream, print_unless_csv_map_Mac2ID.
  cbn [slsStream set_slsStream map_Mac2ID set_map_Mac2ID main_parameters
       wifiMac srcNodeID].
  rewrite Hbssid.
  rewrite (map_subscript_present _ _ _ (Hreg _ Hresp)). cbn [snd].
  rewrite (map_subscript_present _ _ _ (Hreg _ Hcoord)). cbn [snd].
  rewrite (Hreg _ Hresp), (Hreg _ Hcoord). cbn [default].
  eexists. repeat split; try by apply Hreg.
  all: cbn [sls_SRC_ID sls_DST_ID sls_BSS_ID]; by apply Hwrap, Hids.
Qed.

Lemma sls_display_ids_witness :
  let st' :=
    SLSCompleted
      (main_parameters (mkWifiNetDevice 101 1)
         (mkDmgWifiMac 101 true 100 DMG_STA)) 100%N 3 1 oneStationRegistry in
  ∃ isrc idst ibss row,
    map_Mac2ID oneStationRegistry !! 101%N = Some isrc
    ∧ map_Mac2ID oneStationRegistry !! 100%N = Some idst
    ∧ map_Mac2ID oneStationRegistry !! 100%N = Some ibss
    ∧ slsStream st' = slsStream oneStationRegistry ++ [row]
    ∧ sls_SRC_ID row = isrc + 1
    ∧ sls_DST_ID row = idst + 1
    ∧ sls_BSS_ID row = ibss + 1
    ∧ map_Mac2ID st' = map_Mac2ID oneStationRegistry.
Proof.
  apply (sls_display_ids [mkWifiNetDevice 100 0] [mkWifiNetDevice 101 1]
           initialState (mkWifiNetDevice 101 1) (mkWifiNetDevice 100 0)
           (mkWifiNetDevice 100 0) (mkDmgWifiMac 101 true 100 DMG_STA) 3 1).
  - simpl. apply NoDup_cons. split; [|apply NoDup_singleton].
    by intros ?%list_elem_of_singleton.
  - intros d Hd. repeat (apply elem_of_cons in Hd as [->|Hd]; [simpl; lia|]).
    by apply elem_of_nil in Hd.
  - apply elem_of_cons; right. apply elem_of_cons; by left.
  - apply elem_of_cons; by left.
  - apply elem_of_cons; by left.
  - reflexivity.
Defined.

(** * Further properties of the callbacks *)

(** ** The sampler's line and what a tick leaves alone *)

Lemma sampler_loop_total GetTotalRx l : ∀ pairs printed totalThr,
  (foldl (sampler_body GetTotalRx) (pairs, printed, totalThr) l).2 =
    foldl PrimFloat.add totalThr ((sampled_rate GetTotalRx ∘ snd) <$> l).
Proof.
  induction l as [|it l IH]; intros pairs printed totalThr; cbn [foldl].
  - reflexivity.
  - rewrite sampler_body_eq, IH. reflexivity.
Qed.

Lemma length_entries (m : gmap N CommunicationPair) :
  length (entries m) = size m.
Proof. rewrite entries_Permutation. apply length_map_to_list. Qed.

Lemma CalculateThroughput_cout GetTotalRx st :
  let rates :=
    (sampled_rate GetTotalRx ∘ snd) <$> entries (communicationPairList st) in
  cout (CalculateThroughput GetTotalRx st) =
    cout st ++
      [(if csv st then CsvThroughputLine else PlainThroughputLine)
         (Now st) rates (foldl PrimFloat.add 0%float rates)].
Proof.
  rewrite CalculateThroughput_eq. cbn zeta.
  cbn [cout Simulator_Schedule set_pendingEvents set_cout].
  rewrite sampler_loop_printed, sampler_loop_total. cbn [app].
  by destruct (csv st).
Qed.

(** X1. Every tick appends exactly one line to the console: a CSV line in
    CSV mode and a plain one otherwise, stamped with the current time. The
    line has one rate per registered pair, in ascending order of the nodes,
    and its total is those rates added from left to right, starting from 0,
    in double arithmetic. *)
Theorem sampler_line (GetTotalRx : PacketSinkPtr → Z) (st : State) :
  ∃ rates total,
    cout (CalculateThroughput GetTotalRx st) =
      cout st ++
        [(if csv st then CsvThroughputLine else PlainThroughputLine)
           (Now st) rates total]
    ∧ length rates = size (communicationPairList st)
    ∧ (∀ i, rates !! i =
            (λ it, delta_rate
                     (wrap64 (GetTotalRx (packetSink it.2) - totalRx it.2)))
            <$> entries (communicationPairList st) !! i)
    ∧ StronglySorted N.lt (entries (communicationPairList st)).*1
    ∧ total = foldl PrimFloat.add 0%float rates.
Proof.
  eexists _, _. split; [apply CalculateThroughput_cout|].
  split; [by rewrite length_fmap, length_entries|].
  split; [intros i; by rewrite list_lookup_fmap|]. split; [|done].
  assert (Sorted entry_le (entries (communicationPairList st))) as Hsorted.
  { assert (Total entry_le) by (intros a b; unfold entry_le; lia).
    unfold entries. apply (Sorted_merge_sort entry_le). }
  pose proof (NoDup_fst_entries (communicationPairList st)) as Hnd.
  induction Hsorted as [|it l Hl IH Hhd]; [constructor|].
  rewrite fmap_cons in Hnd |- *. apply NoDup_cons in Hnd as [Hfresh Hnd].
  specialize (IH Hnd). constructor; [done|].
  destruct Hhd as [|it' l' Hle]; [constructor|].
  rewrite fmap_cons in *. unfold entry_le in Hle.
  assert (it.1 ≠ it'.1) by (intros Heq; apply Hfresh; rewrite Heq; left).
  assert (it.1 < it'.1)%N as Hlt by lia.
  constructor; [done|].
  apply StronglySorted_inv in IH as [_ Hall].
  eapply Forall_impl; [exact Hall|]. intros k Hk. simpl in Hk. lia.
Qed.

Lemma CalculateThroughput_dom GetTotalRx st :
  dom (communicationPairList (CalculateThroughput GetTotalRx st))
  = dom (communicationPairList st).
Proof.
  apply set_eq. intros node.
  by rewrite !elem_of_dom, CalculateThroughput_pairs, fmap_is_Some.
Qed.

(** X2. A tick registers and unregisters nothing: the table has the same
    nodes before and after, every record keeps its applications and its
    start time, and the registry, the retrain counters, the application
    commands and the two trace streams are untouched. *)
Theorem sampler_frame (GetTotalRx : PacketSinkPtr → Z) (st : State) :
  let st' := CalculateThroughput GetTotalRx st in
  dom (communicationPairList st') = dom (communicationPairList st)
  ∧ (∀ node pair', communicationPairList st' !! node = Some pair' →
       ∃ pair, communicationPairList st !! node = Some pair
               ∧ srcApp pair' = srcApp pair
               ∧ packetSink pair' = packetSink pair
               ∧ startTime pair' = startTime pair)
  ∧ map_Mac2ID st' = map_Mac2ID st
  ∧ biCounter st' = biCounter st
  ∧ applicationCommands st' = applicationCommands st
  ∧ txssCbapRequests st' = txssCbapRequests st
  ∧ slsStream st' = slsStream st
  ∧ snrStream st' = snrStream st.
Proof.
  intros st'. subst st'. split; [|split].
  - apply CalculateThroughput_dom.
  - intros node pair'. rewrite CalculateThroughput_pairs.
    destruct (communicationPairList st !! node) as [pair|]; [|done].
    intros [= <-]. by exists pair.
  - rewrite CalculateThroughput_eq. repeat split.
Qed.

Lemma delta_rate_0 : delta_rate 0 = 0%float.
Proof. reflexivity. Qed.

Lemma foldl_add_zeros (n : nat) :
  foldl PrimFloat.add 0%float (replicate n 0%float) = 0%float.
Proof. induction n as [|n IH]; [done|]. cbn [replicate foldl]. exact IH. Qed.

Lemma fmap_const_replicate {A B} (f : A → B) (b : B) (l : list A) :
  Forall (λ x, f x = b) l → f <$> l = replicate (length l) b.
Proof.
  induction 1 as [|x l Hx _ IH]; [done|].
  cbn [length replicate]. rewrite fmap_cons, Hx, IH. reflexivity.
Qed.

(** X3. A later tick that finds the sinks' counters where the previous tick
    left them prints 0 for every pair and 0 as the total, and it stores the
    same counters again. *)
Theorem sampler_quiet_tick (GetTotalRx : PacketSinkPtr → Z) (st : State)
    (t : Time) :
  let st1 := CalculateThroughput GetTotalRx st in
  let st2 := CalculateThroughput GetTotalRx (set_Now t st1) in
  last (cout st2) =
    Some ((if csv st then CsvThroughputLine else PlainThroughputLine) t
            (replicate (size (communicationPairList st)) 0%float) 0%float)
  ∧ ∀ node, totalRx <$> communicationPairList st2 !! node
            = totalRx <$> communicationPairList st1 !! node.
Proof.
  intros st1 st2. subst st2 st1. split.
  - rewrite CalculateThroughput_cout, last_snoc. cbn zeta.
    change (communicationPairList (set_Now t ?s))
      with (communicationPairList s).
    change (csv (set_Now t ?s)) with (csv s).
    change (Now (set_Now t ?s)) with t.
    assert (csv (CalculateThroughput GetTotalRx st) = csv st) as ->.
    { by rewrite CalculateThroughput_eq. }
    rewrite (fmap_const_replicate _ 0%float).
    + rewrite length_entries, foldl_add_zeros.
      rewrite <- (size_dom (D := gset N)),
        <- (size_dom (D := gset N) (communicationPairList st)).
      by rewrite CalculateThroughput_dom.
    + apply Forall_forall. intros [node pair'] Hin%elem_of_entries.
      rewrite CalculateThroughput_pairs in Hin.
      destruct (communicationPairList st !! node) as [pair|]; [|done].
      injection Hin as <-. cbn [compose snd]. unfold sampled_rate.
      cbn [packetSink totalRx sampled_pair].
      rewrite Z.sub_diag. exact delta_rate_0.
  - intros node. rewrite (CalculateThroughput_pairs _ (set_Now _ _)).
    change (communicationPairList (set_Now t ?s))
      with (communicationPairList s).
    rewrite !CalculateThroughput_pairs.
    by destruct (communicationPairList st !! node).
Qed.

(** X4. When a sink's counter is below the count stored at the previous
    tick, the difference wraps around instead of going negative: the rate
    printed for the pair is that of [2^64 - (stored - counter)] bytes. *)
Theorem sampler_counter_backwards (GetTotalRx : PacketSinkPtr → Z)
    (st : State) (node : NodePtr) (pair : CommunicationPair) :
  communicationPairList st !! node = Some pair →
  0 ≤ GetTotalRx (packetSink pair) < totalRx pair →
  totalRx pair < 2 ^ 64 →
  ∃ i, entries (communicationPairList st) !! i = Some (node, pair)
       ∧ last_printed_rates (CalculateThroughput GetTotalRx st) !! i =
           Some (delta_rate
                   (2 ^ 64 - (totalRx pair - GetTotalRx (packetSink pair)))).
Proof.
  intros Hpair Hback Hmax.
  apply elem_of_entries, list_elem_of_lookup in Hpair as [i Hi].
  exists i. split; [done|].
  rewrite CalculateThroughput_printed, list_lookup_fmap, Hi.
  cbn [fmap option_fmap option_map compose snd]. unfold sampled_rate.
  do 2 f_equal. unfold wrap64.
  symmetry. apply (Z.mod_unique _ _ (-1)); lia.
Qed.

Lemma sampler_counter_backwards_witness :
  ∃ i, entries (communicationPairList
                  (CalculateThroughput (λ _, 500) twoStations)) !! i
       = Some (1%N, mkCommunicationPair 0 1 500 (delta_rate 500) 0)
       ∧ last_printed_rates
           (CalculateThroughput (λ _, 100)
              (CalculateThroughput (λ _, 500) twoStations)) !! i
         = Some (delta_rate (2 ^ 64 - 400)).
Proof.
  apply (sampler_counter_backwards (λ _, 100)
           (CalculateThroughput (λ _, 500) twoStations) 1%N
           (mkCommunicationPair 0 1 500 (delta_rate 500) 0)).
  - vm_compute. reflexivity.
  - simpl. lia.
  - simpl. lia.
Defined.

(** ** Association and the sampler *)

(** X5. An association and a sample tick at the same instant commute on the
    table of pairs and on the commands sent to the applications: whichever
    runs first, the pair ends with the new start time, the new byte count
    and the rate added once. In particular an association resets neither
    the stored byte count nor the running sum. *)
Theorem association_commutes_with_tick (GetTotalRx : PacketSinkPtr → Z)
    (node : NodePtr) (staWifiMac : DmgWifiMac) (address : Mac48Address)
    (aid : Z) (st : State) (pair : CommunicationPair) :
  communicationPairList st !! node = Some pair →
  ∃ st1 st2,
    StationAssoicated node staWifiMac address aid st = Returned st1
    ∧ StationAssoicated node staWifiMac address aid
        (CalculateThroughput GetTotalRx st) = Returned st2
    ∧ communicationPairList (CalculateThroughput GetTotalRx st1)
      = communicationPairList st2
    ∧ applicationCommands (CalculateThroughput GetTotalRx st1)
      = applicationCommands st2
    ∧ communicationPairList st2 !! node =
        Some (mkCommunicationPair (srcApp pair) (packetSink pair)
                (GetTotalRx (packetSink pair))
                (PrimFloat.add (throughput pair)
                   (sampled_rate GetTotalRx pair))
                (Now st)).
Proof.
  intros Hpair.
  assert (communicationPairList (CalculateThroughput GetTotalRx st) !! node
          = Some (sampled_pair GetTotalRx pair)) as Hpair'.
  { by rewrite CalculateThroughput_pairs, Hpair. }
  rewrite (StationAssoicated_found _ _ _ _ _ _ Hpair).
  rewrite (StationAssoicated_found _ _ _ _ _ _ Hpair'). cbn zeta.
  eexists _, _. split; [reflexivity|]. split; [reflexivity|].
  assert (Now (CalculateThroughput GetTotalRx st) = Now st) as HNow.
  { by rewrite CalculateThroughput_eq. }
  assert (applicationCommands (CalculateThroughput GetTotalRx st)
          = applicationCommands st) as Hcmd.
  { by rewrite CalculateThroughput_eq. }
  split; [|split].
  - apply map_eq. intros k. rewrite CalculateThroughput_pairs.
    cbn [communicationPairList set_applicationCommands
         set_communicationPairList].
    rewrite HNow. destruct (decide (k = node)) as [->|Hne].
    + rewrite !lookup_insert_eq. reflexivity.
    + rewrite !lookup_insert_ne by done.
      by rewrite CalculateThroughput_pairs.
  - rewrite CalculateThroughput_eq.
    cbn [applicationCommands set_applicationCommands Simulator_Schedule
         set_pendingEvents set_cout set_communicationPairList].
    by rewrite Hcmd.
  - cbn [communicationPairList set_applicationCommands
         set_communicationPairList].
    rewrite lookup_insert_eq, HNow. reflexivity.
Qed.

Lemma association_commutes_with_tick_witness :
  ∃ st1 st2,
    StationAssoicated 1%N (mkDmgWifiMac 7 true 9 DMG_STA) 9%N 1
      (set_Now 1000 twoStations) = Returned st1
    ∧ StationAssoicated 1%N (mkDmgWifiMac 7 true 9 DMG_STA) 9%N 1
        (CalculateThroughput (λ _, 10000) (set_Now 1000 twoStations))
      = Returned st2
    ∧ communicationPairList (CalculateThroughput (λ _, 10000) st1)
      = communicationPairList st2
    ∧ communicationPairList st2 !! 1%N =
        Some (mkCommunicationPair 0 1 10000
                (PrimFloat.add 0 (delta_rate 10000)) 1000).
Proof.
  destruct (association_commutes_with_tick (λ _, 10000) 1%N
              (mkDmgWifiMac 7 true 9 DMG_STA) 9%N 1
              (set_Now 1000 twoStations) (mkCommunicationPair 0 1 0 0 0)
              eq_refl)
    as (st1 & st2 & H1 & H2 & Hpairs & _ & Hnode).
  exists st1, st2. split; [exact H1|]. split; [exact H2|].
  split; [exact Hpairs|exact Hnode].
Defined.

(** ** Installation of the applications *)

Lemma main_install_from_installed staWifiNodes : ∀ i ap apAddress st,
  applicationType st = "onoff" ∨ applicationType st = "bulk" →
  ∃ st',
    main_install_from i staWifiNodes ap apAddress st = Some st'
    ∧ nextApplication st' =
        (nextApplication st + 2 * N.of_nat (length staWifiNodes))%N
    ∧ (∀ node, node ∉ staWifiNodes →
         communicationPairList st' !! node = communicationPairList st !! node)
    ∧ (NoDup staWifiNodes → ∀ k sta, staWifiNodes !! k = Some sta →
         communicationPairList st' !! sta =
           Some (mkCommunicationPair
                   (nextApplication st + 2 * N.of_nat k)%N
                   (nextApplication st + 2 * N.of_nat k + 1)%N 0 0%float 0)).
Proof.
  induction staWifiNodes as [|sta0 rest IH]; intros i ap apAddress st Htype.
  - exists st. cbn [main_install_from length]. split; [done|].
    split; [f_equal; lia|]. split; [done|]. intros _ k sta Hk. done.
  - cbn [main_install_from].
    rewrite main_install_pair_installed by done.
    set (st1 := set_communicationPairList _ _).
    destruct (IH (i + 1) ap apAddress st1)
      as (st' & Hrun & Hnext & Hout & Hin).
    { exact Htype. }
    exists st'. split; [exact Hrun|]. split; [|split].
    + rewrite Hnext. subst st1.
      cbn [nextApplication set_communicationPairList set_nextApplication
           length]. lia.
    + intros node [Hne Hnode]%not_elem_of_cons. rewrite Hout by done.
      subst st1. cbn [communicationPairList set_communicationPairList].
      by rewrite lookup_insert_ne.
    + intros [Hfresh Hnd]%NoDup_cons [|k] sta Hk.
      * injection Hk as <-. rewrite Hout by done. subst st1.
        cbn [communicationPairList set_communicationPairList].
        rewrite lookup_insert_eq. do 2 f_equal; lia.
      * rewrite (Hin Hnd k sta Hk). subst st1.
        cbn [nextApplication set_communicationPairList set_nextApplication].
        do 2 f_equal; lia.
Qed.

Lemma main_install_from_fresh_records staWifiNodes : ∀ i ap apAddress st,
  applicationType st = "onoff" ∨ applicationType st = "bulk" →
  ∃ st',
    main_install_from i staWifiNodes ap apAddress st = Some st'
    ∧ ∀ sta, sta ∈ staWifiNodes →
        ∃ pair, communicationPairList st' !! sta = Some pair
                ∧ totalRx pair = 0 ∧ throughput pair = 0%float
                ∧ startTime pair = 0.
Proof.
  induction staWifiNodes as [|sta0 rest IH]; intros i ap apAddress st Htype.
  - exists st. split; [done|]. intros sta Hin. by apply elem_of_nil in Hin.
  - destruct (main_install_from_installed (sta0 :: rest) i ap apAddress st
                Htype) as (st' & Hrun & _ & Hout & _).
    exists st'. split; [exact Hrun|]. intros sta Hin.
    cbn [main_install_from] in Hrun.
    rewrite main_install_pair_installed in Hrun by done.
    set (st1 := set_communicationPairList _ _) in Hrun.
    destruct (IH (i + 1) ap apAddress st1 Htype) as (st'' & Hrun' & Hrest).
    rewrite Hrun in Hrun'. injection Hrun' as <-.
    destruct (decide (sta ∈ rest)) as [Hrest_in|Hrest_out];
      [by apply Hrest|].
    apply elem_of_cons in Hin as [->|Hin]; [|done].
    destruct (main_install_from_installed rest (i + 1) ap apAddress st1
                Htype) as (st'' & Hrun'' & _ & Hout' & _).
    rewrite Hrun in Hrun''. injection Hrun'' as <-.
    rewrite Hout' by done. subst st1.
    cbn [communicationPairList set_communicationPairList].
    rewrite lookup_insert_eq. eexists. split; [reflexivity|]. done.
Qed.

(** X6. With the application type "onoff" or "bulk", the installation loop
    of [main] runs to its end for any list of stations and leaves a record
    for every station of the list, with the byte count, the running sum and
    the start time at 0, whatever the station had before. The nodes that
    are not in the list keep what they had, so the nodes of the table are
    those it had together with the stations. *)
Theorem installation_registers_every_station (staWifiNodes : list NodePtr)
    (ap : NodePtr) (apAddress : N) (st : State) :
  applicationType st = "onoff" ∨ applicationType st = "bulk" →
  ∃ st',
    main_install_applications staWifiNodes ap apAddress st = Some st'
    ∧ (∀ sta, sta ∈ staWifiNodes →
         ∃ pair, communicationPairList st' !! sta = Some pair
                 ∧ totalRx pair = 0 ∧ throughput pair = 0%float
                 ∧ startTime pair = 0)
    ∧ (∀ node, node ∉ staWifiNodes →
         communicationPairList st' !! node = communicationPairList st !! node)
    ∧ dom (communicationPairList st') =
        dom (communicationPairList st) ∪ list_to_set staWifiNodes.
Proof.
  intros Htype. unfold main_install_applications.
  destruct (main_install_from_fresh_records staWifiNodes 0 ap apAddress st
              Htype) as (st' & Hrun & Hin).
  destruct (main_install_from_installed staWifiNodes 0 ap apAddress st Htype)
    as (st'' & Hrun' & _ & Hout & _).
  rewrite Hrun in Hrun'. injection Hrun' as <-.
  exists st'. split; [exact Hrun|]. split; [exact Hin|]. split; [exact Hout|].
  apply set_eq. intros node.
  rewrite elem_of_union, !elem_of_dom, elem_of_list_to_set.
  destruct (decide (node ∈ staWifiNodes)) as [Hnode|Hnode].
  - destruct (Hin node Hnode) as (pair & -> & _). split; [by right|eauto].
  - rewrite Hout by done. split; [by left|]. by intros [?|?].
Qed.

Lemma installation_registers_every_station_witness :
  ∃ st',
    main_install_applications [1%N; 3%N] 0%N 0%N
      (CalculateThroughput (λ _, 10000) twoStations) = Some st'
    ∧ (∃ pair, communicationPairList st' !! 1%N = Some pair
               ∧ totalRx pair = 0 ∧ throughput pair = 0%float
               ∧ startTime pair = 0)
    ∧ dom (communicationPairList st') = {[1%N; 2%N; 3%N]}.
Proof.
  destruct (installation_registers_every_station [1%N; 3%N] 0%N 0%N
              (CalculateThroughput (λ _, 10000) twoStations))
    as (st' & Hrun & Hin & _ & Hdom); [by left|].
  exists st'. split; [exact Hrun|]. split.
  - apply Hin. apply elem_of_cons. by left.
  - rewrite Hdom, CalculateThroughput_dom. vm_compute. reflexivity.
Defined.

(** X7. After [main] has installed the applications of distinct stations
    into an empty table, an association or a deassociation ends in a fatal
    error exactly for the nodes that are not among those stations (the
    access point's node, for one). *)
Theorem installed_stations_never_fatal (staWifiNodes : list NodePtr)
    (ap : NodePtr) (apAddress : N) (st : State) (node : NodePtr)
    (staWifiMac : DmgWifiMac) (address : Mac48Address) (aid : Z) :
  applicationType st = "onoff" ∨ applicationType st = "bulk" →
  NoDup staWifiNodes →
  communicationPairList st = ∅ →
  ∃ st',
    main_install_applications staWifiNodes ap apAddress st = Some st'
    ∧ (node ∈ staWifiNodes ↔
       ∃ st'', StationAssoicated node staWifiMac address aid st'
               = Returned st'')
    ∧ (node ∈ staWifiNodes ↔
       ∃ st'', StationDeassoicated node staWifiMac address st'
               = Returned st'').
Proof.
  intros Htype Hnd Hempty. unfold main_install_applications.
  destruct (main_install_from_installed staWifiNodes 0 ap apAddress st Htype)
    as (st' & Hrun & _ & Hout & Hin).
  exists st'. split; [exact Hrun|].
  destruct (decide (node ∈ staWifiNodes)) as [Hnode|Hnode].
  - destruct (proj1 (list_elem_of_lookup _ _) Hnode) as [k Hk].
    pose proof (Hin Hnd _ _ Hk) as Hpair.
    rewrite (StationAssoicated_found _ _ _ _ _ _ Hpair).
    rewrite (StationDeassoicated_found _ _ _ _ _ Hpair). cbn zeta.
    split; (split; [eauto|done]).
  - assert (communicationPairList st' !! node = None) as Hnone.
    { rewrite Hout by done. by rewrite Hempty. }
    unfold StationAssoicated, StationDeassoicated.
    rewrite !print_unless_csv_pairs, Hnone.
    split; (split; [done|]); intros [st'' Hrun']; discriminate Hrun'.
Qed.

Lemma installed_stations_never_fatal_witness :
  ∃ st',
    main_install_applications [1%N; 2%N] 0%N 0%N initialState = Some st'
    ∧ ¬ ∃ st'', StationAssoicated 0%N (mkDmgWifiMac 100 true 100 DMG_AP)
                  100%N 0 st' = Returned st''.
Proof.
  destruct (installed_stations_never_fatal [1%N; 2%N] 0%N 0%N initialState
              0%N (mkDmgWifiMac 100 true 100 DMG_AP) 100%N 0)
    as (st' & Hrun & Hassoc & _).
  - by left.
  - apply NoDup_cons. split; [|apply NoDup_singleton].
    by intros ?%list_elem_of_singleton.
  - reflexivity.
  - exists st'. split; [exact Hrun|]. intros Hret.
    apply Hassoc in Hret.
    repeat (apply elem_of_cons in Hret as [Hret|Hret]; [discriminate Hret|]).
    by apply elem_of_nil in Hret.
Defined.

(** ** Construction of the registry *)

(** X8. The loop that builds the registry lets the last device win: an
    address ends up mapped to the node id of the last device in the list
    that has this address, and an address of no device keeps the entry it
    had before the loop, if any. *)
Theorem registry_last_device_wins (devices : list WifiNetDevice)
    (m : gmap N Z) (address : Mac48Address) :
  main_map_devices devices m !! address =
    match last (filter (λ d, GetMacAddress d = address) devices) with
    | Some d => Some (GetNodeId d)
    | None => m !! address
    end.
Proof.
  revert m. induction devices as [|d0 rest IH]; intros m; [done|].
  cbn [main_map_devices]. rewrite IH, filter_cons.
  destruct (decide (GetMacAddress d0 = address)) as [Heq|Hne].
  - rewrite last_cons.
    destruct (last (filter _ rest)) as [d|]; [done|].
    rewrite Heq. apply lookup_insert_eq.
  - destruct (last (filter _ rest)) as [d|]; [done|].
    by apply lookup_insert_ne.
Qed.

(** X9. Built from devices with distinct addresses into an empty registry,
    the registry holds exactly the pairs (address, node id) of the devices,
    one entry per device; and when the node ids are distinct too, no two
    addresses have the same index. *)
Theorem registry_is_bijective (devices : list WifiNetDevice) :
  NoDup (GetMacAddress <$> devices) →
  let registry := main_map_devices devices ∅ in
  (∀ address index,
     registry !! address = Some index
     ↔ ∃ d, d ∈ devices ∧ GetMacAddress d = address ∧ GetNodeId d = index)
  ∧ size registry = length devices
  ∧ (NoDup (GetNodeId <$> devices) →
     ∀ a1 a2 index,
       registry !! a1 = Some index → registry !! a2 = Some index → a1 = a2).
Proof.
  intros Hnd registry.
  assert (∀ address index,
            registry !! address = Some index
            ↔ ∃ d, d ∈ devices ∧ GetMacAddress d = address
                   ∧ GetNodeId d = index) as Hspec.
  { intros address index. split.
    - intros Hreg.
      destruct (decide (address ∈ GetMacAddress <$> devices)) as [Hin|Hout].
      + apply list_elem_of_fmap in Hin as (d & -> & Hd).
        exists d. split; [done|]. split; [done|].
        subst registry.
        rewrite (main_map_devices_recorded _ _ _ Hnd Hd) in Hreg.
        by injection Hreg.
      + subst registry. by rewrite main_map_devices_other in Hreg.
    - intros (d & Hd & <- & <-). by apply main_map_devices_recorded. }
  split; [exact Hspec|]. split.
  - assert (dom registry = list_to_set (GetMacAddress <$> devices)) as Hdom.
    { apply set_eq. intros a. rewrite elem_of_dom, elem_of_list_to_set.
      rewrite list_elem_of_fmap. split.
      - intros [index (d & Hd & <- & _)%Hspec]. eauto.
      - intros (d & -> & Hd). exists (GetNodeId d). apply Hspec. eauto. }
    rewrite <- (size_dom (D := gset N)), Hdom, size_list_to_set by done.
    apply length_fmap.
  - intros Hids a1 a2 index (d1 & Hd1 & <- & Hi1)%Hspec
      (d2 & Hd2 & <- & Hi2)%Hspec.
    apply list_elem_of_lookup in Hd1 as [k1 Hk1].
    apply list_elem_of_lookup in Hd2 as [k2 Hk2].
    assert (k1 = k2) as ->.
    { eapply (NoDup_lookup _ _ _ index Hids);
        rewrite list_lookup_fmap; [rewrite Hk1|rewrite Hk2]; simpl;
        congruence. }
    congruence.
Qed.

Lemma registry_is_bijective_witness :
  size (main_map_devices [mkWifiNetDevice 100 0; mkWifiNetDevice 101 1] ∅)
  = 2%nat.
Proof.
  refine (proj1 (proj2 (registry_is_bijective
            [mkWifiNetDevice 100 0; mkWifiNetDevice 101 1] _))).
  simpl. apply NoDup_cons. split; [|apply NoDup_singleton].
  by intros ?%list_elem_of_singleton.
Defined.

(** ** Stability of the displayed identities *)

Lemma SLSCompleted_registry parameters address sectorId antennaId st k :
  map_Mac2ID (SLSCompleted parameters address sectorId antennaId st) !! k =
    if decide (k = address ∨ k = GetBssid (wifiMac parameters))
    then Some (registry_index st k)
    else map_Mac2ID st !! k.
Proof.
  rewrite SLSCompleted_eq. cbn zeta. rewrite print_unless_csv_map_Mac2ID.
  cbn [map_Mac2ID set_slsStream set_map_Mac2ID]. unfold registry_index.
  rewrite !map_subscript_lookup.
  repeat case_decide; subst; try reflexivity; exfalso; intuition congruence.
Qed.

Lemma SLSCompleted_row parameters address sectorId antennaId st :
  last (slsStream (SLSCompleted parameters address sectorId antennaId st)) =
    Some (mkSlsRow (wrap32 (srcNodeID parameters + 1))
            (wrap32 (registry_index st address + 1))
            (currentTraceIndex st) sectorId antennaId
            (GetTypeOfStation (wifiMac parameters))
            (wrap32 (registry_index st (GetBssid (wifiMac parameters)) + 1))
            (Now st)).
Proof.
  rewrite SLSCompleted_eq. cbn zeta. rewrite print_unless_csv_slsStream.
  cbn [slsStream set_slsStream]. rewrite last_snoc. do 2 f_equal.
  unfold registry_index. rewrite map_subscript_lookup.
  case_decide as Heq; [|done]. by rewrite Heq.
Qed.

(** X10. The entries that the lookups of [SLSCompleted] insert cannot be
    seen in the trace: after a callback every address still yields the
    index it yielded before, so the row of any later callback (at the same
    instant and trace index) is the row that callback would have written
    had the earlier one not run. *)
Theorem sls_lookups_are_stable (p1 p2 : Parameters) (a1 a2 : Mac48Address)
    (s1 n1 s2 n2 : Z) (st : State) :
  (∀ address,
     registry_index (SLSCompleted p1 a1 s1 n1 st) address
     = registry_index st address)
  ∧ last (slsStream (SLSCompleted p2 a2 s2 n2 (SLSCompleted p1 a1 s1 n1 st)))
    = last (slsStream (SLSCompleted p2 a2 s2 n2 st)).
Proof.
  assert (∀ address,
            registry_index (SLSCompleted p1 a1 s1 n1 st) address
            = registry_index st address) as Hstable.
  { intros address. unfold registry_index at 1.
    rewrite SLSCompleted_registry. by case_decide. }
  split; [exact Hstable|]. rewrite !SLSCompleted_row, !Hstable.
  assert (currentTraceIndex (SLSCompleted p1 a1 s1 n1 st)
          = currentTraceIndex st
          ∧ Now (SLSCompleted p1 a1 s1 n1 st) = Now st) as [-> ->].
  { rewrite SLSCompleted_eq. cbn zeta. unfold print_unless_csv.
    by destruct (csv _). }
  reflexivity.
Qed.

(** ** The retrain counter over many beacon intervals *)

Lemma beacon_intervals_snoc macs mac address st :
  beacon_intervals (macs ++ [mac]) address st =
    DataTransmissionIntervalStarted mac address
      (beacon_intervals macs address st).
Proof. unfold beacon_intervals. by rewrite foldl_app. Qed.

Lemma counter_step_arith (c n thr : Z) :
  0 < thr → 0 ≤ c + n →
  (if decide ((c + n) mod thr + 1 = thr)
   then (c + (n + 1)) mod thr = 0 ∧ (c + (n + 1)) / thr = (c + n) / thr + 1
   else (c + (n + 1)) mod thr = (c + n) mod thr + 1
        ∧ (c + (n + 1)) / thr = (c + n) / thr).
Proof.
  intros Hthr Hpos.
  pose proof (Z.div_mod (c + n) thr ltac:(lia)) as Hdm.
  pose proof (Z.mod_pos_bound (c + n) thr Hthr) as Hr.
  case_decide as Hreach.
  - split.
    + symmetry. apply (Z.mod_unique _ _ ((c + n) / thr + 1)); [lia|nia].
    + symmetry. apply (Z.div_unique _ _ _ 0); [lia|nia].
  - split.
    + symmetry. apply (Z.mod_unique _ _ ((c + n) / thr)); [lia|nia].
    + symmetry. apply (Z.div_unique _ _ _ ((c + n) mod thr + 1)); [lia|nia].
Qed.

(** X11. Over any sequence of beacon intervals of one station, with a
    threshold between 1 and 65535 and a counter that starts below it: the
    intervals at which the station is not associated do not count, the
    stored counter is the start value plus the number of associated
    intervals, modulo the threshold, and the number of sweeps requested is
    the quotient. Every request names the station. *)
Theorem retrain_counter_periodic (macs : list DmgWifiMac)
    (address : Mac48Address) (st : State) :
  0 < biThreshold st < 2 ^ 16 →
  0 ≤ counter_of st address < biThreshold st →
  (∀ mac, mac ∈ macs → GetAddress mac = address) →
  let st' := beacon_intervals macs address st in
  let associated :=
    Z.of_nat (length (filter (λ mac, IsAssociated mac = true) macs)) in
  ∃ requests,
    counter_of st' address =
      (counter_of st address + associated) mod biThreshold st
    ∧ txssCbapRequests st' = txssCbapRequests st ++ requests
    ∧ Z.of_nat (length requests) =
        (counter_of st address + associated) / biThreshold st
    ∧ (∀ request, request ∈ requests → request.1 = address)
    ∧ biThreshold st' = biThreshold st.
Proof.
  intros Hthr Hc. induction macs as [|mac macs IH] using rev_ind; intros Hmacs.
  - cbn zeta. exists []. cbn [beacon_intervals foldl filter length].
    rewrite Z.add_0_r, app_nil_r, Z.mod_small, Z.div_small by lia.
    repeat split. intros request Hin. by apply elem_of_nil in Hin.
  - cbn zeta in *. rewrite beacon_intervals_snoc, filter_app, length_app.
    destruct IH as (requests & Hcnt & Hreq & Hlen & Haddr & Hsame).
    { intros mac' Hin. apply Hmacs, elem_of_app. by left. }
    set (st1 := beacon_intervals macs address st) in *.
    set (n := Z.of_nat (length (filter _ macs))) in *.
    destruct (IsAssociated mac) eqn:Hassoc.
    + rewrite filter_cons_True by done. cbn [filter length].
      replace (Z.of_nat
                 (length (filter (λ mac0, IsAssociated mac0 = true) macs) + 1))
        with (n + 1) by (subst n; lia).
      rewrite DataTransmissionIntervalStarted_associated by done. cbn zeta.
      pose proof (counter_step_arith (counter_of st address) n
                    (biThreshold st) ltac:(lia) ltac:(lia)) as Harith.
      assert (0 ≤ counter_of st1 address < biThreshold st) as Hc1.
      { rewrite Hcnt. apply Z.mod_pos_bound. lia. }
      rewrite Hsame.
      assert (wrap16 (counter_of st1 address + 1) = counter_of st1 address + 1)
        as ->.
      { unfold wrap16. apply Z.mod_small. lia. }
      rewrite <- Hcnt in Harith.
      destruct (Z.eqb_spec (counter_of st1 address + 1) (biThreshold st))
        as [Hreach|Hbelow]; case_decide; try done;
        destruct Harith as [Hmod Hdiv].
      * exists (requests ++ [(GetAddress mac, GetBssid mac)]).
        unfold counter_of at 1.
        cbn [biCounter set_biCounter txssCbapRequests set_txssCbapRequests
             biThreshold].
        rewrite lookup_insert_eq, Hreq, <- app_assoc, length_app.
        cbn [default length]. repeat split; try done; try lia.
        intros request [Hin| ->%list_elem_of_singleton]%elem_of_app;
          [by apply Haddr|].
        apply Hmacs, elem_of_app. right. by left.
      * exists requests. unfold counter_of at 1.
        cbn [biCounter set_biCounter txssCbapRequests biThreshold].
        rewrite lookup_insert_eq. cbn [default].
        repeat split; try done; lia.
    + rewrite filter_cons_False by (rewrite Hassoc; done).
      cbn [filter length]. rewrite Nat.add_0_r.
      unfold DataTransmissionIntervalStarted. rewrite Hassoc.
      exists requests. done.
Qed.

Lemma retrain_counter_periodic_witness :
  let mac a := mkDmgWifiMac 7 a 1 DMG_STA in
  let st' :=
    beacon_intervals [mac true; mac false; mac true; mac true; mac true]
      7%N nineIntervals in
  ∃ requests,
    counter_of st' 7%N = 3
    ∧ txssCbapRequests st' = requests
    ∧ Z.of_nat (length requests) = 1.
Proof.
  destruct (retrain_counter_periodic
              [mkDmgWifiMac 7 true 1 DMG_STA; mkDmgWifiMac 7 false 1 DMG_STA;
               mkDmgWifiMac 7 true 1 DMG_STA; mkDmgWifiMac 7 true 1 DMG_STA;
               mkDmgWifiMac 7 true 1 DMG_STA] 7%N nineIntervals)
    as (requests & Hcnt & Hreq & Hlen & _).
  - vm_compute. done.
  - vm_compute. split; congruence.
  - intros mac Hin.
    repeat (apply elem_of_cons in Hin as [->|Hin]; [reflexivity|]).
    by apply elem_of_nil in Hin.
  - exists requests. split; [exact Hcnt|]. split; [exact Hreq|exact Hlen].
Defined.

(** ** Sequences of received frames *)

Lemma MacRxOk_keeps WifiMac type address snrValue st :
  Now (MacRxOk WifiMac type address snrValue st) = Now st
  ∧ reportDataSnr (MacRxOk WifiMac type address snrValue st)
    = reportDataSnr st.
Proof. rewrite MacRxOk_reported. by destruct (snr_reported type st). Qed.

Lemma frames_received_snoc frames (f : Frame) st :
  frames_received (frames ++ [f]) st =
    MacRxOk f.1.1.1 f.1.1.2 f.1.2 f.2 (frames_received frames st).
Proof. unfold frames_received. by rewrite foldl_app. Qed.

Lemma frames_received_keeps frames st :
  Now (frames_received frames st) = Now st
  ∧ reportDataSnr (frames_received frames st) = reportDataSnr st.
Proof.
  induction frames as [|f frames IH] using rev_ind; [done|].
  rewrite frames_received_snoc.
  destruct (MacRxOk_keeps f.1.1.1 f.1.1.2 f.1.2 f.2
              (frames_received frames st)) as [-> ->].
  exact IH.
Qed.

(** X12. The SNR stream is append-only and keeps the order of reception:
    after any sequence of frames received at one instant it is the old
    stream followed by one row for each frame of a reported type (the four
    beamforming types, and QoS data when [reportDataSnr] is set), in the
    order of the frames; the other frames leave no trace. *)
Theorem snr_stream_of_frames (frames : list Frame) (st : State) :
  snrStream (frames_received frames st) =
    snrStream st
    ++ (frame_row (Now st)
          <$> filter (λ f : Frame, snr_reported f.1.1.2 st = true) frames).
Proof.
  induction frames as [|f frames IH] using rev_ind.
  - cbn [frames_received foldl filter fmap list_fmap]. by rewrite app_nil_r.
  - rewrite frames_received_snoc.
    destruct (frames_received_keeps frames st) as [HNow Hflag].
    rewrite MacRxOk_reported, filter_app, fmap_app, app_assoc, <- IH.
    assert (snr_reported f.1.1.2 (frames_received frames st)
            = snr_reported f.1.1.2 st) as ->.
    { unfold snr_reported. by rewrite Hflag. }
    destruct (snr_reported f.1.1.2 st) eqn:Hrep.
    + rewrite filter_cons_True by done.
      cbn [snrStream set_snrStream filter fmap list_fmap].
      by rewrite HNow.
    + rewrite filter_cons_False by (rewrite Hrep; done).
      cbn [filter fmap list_fmap]. by rewrite app_nil_r.
Qed.

(** ** The column names of the console header *)

Lemma main_header_columns_few (size : Z) (fuel : nat) : ∀ i columns,
  0 ≤ i ≤ size → size ≤ 255 → (Z.to_nat (size - i) < fuel)%nat →
  main_header_columns fuel i size columns =
    Some (columns ++ seqZ (i + 1) (size - i)).
Proof.
  induction fuel as [|fuel IH]; intros i columns Hi Hsize Hfuel; [lia|].
  cbn [main_header_columns]. destruct (Z.ltb_spec i size) as [Hlt|Hge].
  - assert (wrap8 (i + 1) = i + 1) as ->.
    { unfold wrap8. apply Z.mod_small. lia. }
    rewrite IH by lia. rewrite <- app_assoc. do 2 f_equal.
    rewrite (seqZ_cons (i + 1)) by lia. cbn [app]. do 2 f_equal; lia.
  - replace (size - i) with 0 by lia. by rewrite app_nil_r.
Qed.

Lemma main_header_columns_many (size : Z) (fuel : nat) : ∀ i columns,
  0 ≤ i < 256 → 256 ≤ size →
  main_header_columns fuel i size columns = None.
Proof.
  induction fuel as [|fuel IH]; intros i columns Hi Hsize; [done|].
  cbn [main_header_columns].
  destruct (Z.ltb_spec i size) as [Hlt|Hge]; [|lia].
  apply IH; [|done]. unfold wrap8. apply Z.mod_pos_bound. lia.
Qed.

(** X13. The loop that prints the column names counts with an 8-bit
    counter. With at most 255 pairs it ends after printing the columns
    1, 2, ..., size in this order. With 256 pairs or more the counter wraps
    before it reaches the size: the loop is never left, whatever the number
    of steps allowed. *)
Theorem header_loop_needs_fewer_than_256_pairs (size : Z) (fuel : nat) :
  (0 ≤ size ≤ 255 → (Z.to_nat size < fuel)%nat →
   main_header_columns fuel 0 size [] = Some (seqZ 1 size))
  ∧ (256 ≤ size → main_header_columns fuel 0 size [] = None).
Proof.
  split.
  - intros Hsize Hfuel.
    rewrite main_header_columns_few by lia. cbn [app]. f_equal. f_equal. lia.
  - intros Hsize. apply main_header_columns_many; lia.
Qed.

Lemma header_loop_needs_fewer_than_256_pairs_witness :
  main_header_columns 4 0 3 [] = Some [1; 2; 3]
  ∧ main_header_columns 1000 0 256 [] = None.
Proof.
  split.
  - apply (proj1 (header_loop_needs_fewer_than_256_pairs 3 4)); simpl; lia.
  - apply (proj2 (header_loop_needs_fewer_than_256_pairs 256 1000)). lia.
Defined.

(** ** Ports of the applications *)

(** X14. The port of the pair installed at step [i] of the loop in [main] is
    9000 plus [i] modulo 256, because the step number is passed as an 8-bit
    argument: the ports lie between 9000 and 9255, two steps get the same
    port exactly when they differ by a multiple of 256, and so only the
    first 256 stations have ports of their own. *)
Theorem application_ports_repeat_after_256 (i j : Z) :
  main_application_port i = 9000 + i mod 256
  ∧ 9000 ≤ main_application_port i ≤ 9255
  ∧ (main_application_port i = main_application_port j
     ↔ i mod 256 = j mod 256)
  ∧ main_application_port (i + 256) = main_application_port i.
Proof.
  assert (∀ k, main_application_port k = 9000 + k mod 256) as Hport.
  { intros k. unfold main_application_port, InstallApplications_port,
      wrap16, wrap8.
    change (2 ^ 8) with 256. pose proof (Z.mod_pos_bound k 256 ltac:(lia)).
    apply Z.mod_small. lia. }
  pose proof (Z.mod_pos_bound i 256 ltac:(lia)).
  rewrite !Hport. split; [done|]. split; [lia|]. split; [lia|].
  f_equal. rewrite <- (Z.mul_1_l 256) at 1. apply Z.mod_add. lia.
Qed.

(** ** What the association callbacks print and leave alone *)

(** X15. Whether they return or abort, [StationAssoicated] and
    [StationDeassoicated] have printed their message when they end, and
    printed nothing in CSV mode. An association changes no record but the
    node's own, a deassociation changes no record at all, and neither
    touches the registry, the retrain counters, the trace streams or the
    queued events. *)
Theorem lifecycle_effects (node : NodePtr) (staWifiMac : DmgWifiMac)
    (address : Mac48Address) (aid : Z) (st : State) :
  let st1 :=
    outcome_state (StationAssoicated node staWifiMac address aid st) in
  let st2 := outcome_state (StationDeassoicated node staWifiMac address st) in
  cout st1 =
    cout st ++ (if csv st then []
                else [AssociatedLine (GetAddress staWifiMac) address aid])
  ∧ cout st2 =
      cout st ++ (if csv st then []
                  else [DeassociatedLine (GetAddress staWifiMac) address])
  ∧ (∀ other, other ≠ node →
       communicationPairList st1 !! other = communicationPairList st !! other)
  ∧ communicationPairList st2 = communicationPairList st
  ∧ (∀ st', st' = st1 ∨ st' = st2 →
       map_Mac2ID st' = map_Mac2ID st ∧ biCounter st' = biCounter st
       ∧ slsStream st' = slsStream st ∧ snrStream st' = snrStream st
       ∧ txssCbapRequests st' = txssCbapRequests st
       ∧ pendingEvents st' = pendingEvents st).
Proof.
  intros st1 st2. subst st1 st2.
  unfold StationAssoicated, StationDeassoicated.
  rewrite !print_unless_csv_pairs. unfold print_unless_csv.
  destruct (communicationPairList st !! node) as [pair|] eqn:Hpair,
           (csv st) eqn:Hcsv;
    cbn [outcome_state cout communicationPairList set_applicationCommands
         set_communicationPairList set_cout];
    rewrite ?app_nil_r;
    (split; [done|]); (split; [done|]);
    (split; [intros other Hne; by rewrite ?lookup_insert_ne by done|]);
    (split; [done|]); by intros st' [-> | ->].
Qed.
(** ** Scenarios *)

(** Two pairs; the first sink receives 10000 bytes and the second none
    before the first tick: the line shows 10000 * 8 / 1e5 (0.8 Mbps), 0 and
    their sum. *)
Example throughput_line_two_pairs :
  last (cout (CalculateThroughput
                (λ sink, if decide (sink = 1%N) then 10000 else 0)
                twoStations))
  = Some (PlainThroughputLine 0 [delta_rate 10000; 0%float]
            (delta_rate 10000)).
Proof. vm_compute. reflexivity. Qed.

(** Threshold 3, one associated station: the third beacon interval requests
    the sweep and stores 0, the fourth starts a new count at 1. *)
Example retrain_every_third_interval :
  let mac := mkDmgWifiMac 7 true 1 DMG_STA in
  let st0 :=
    set_biCounter (main_reset_counters [mkWifiNetDevice 7 1] ∅)
      (mkState 0 false true "onoff" 3 0 0%N ∅ ∅ ∅ [] [] [] [] [] []) in
  let st1 := DataTransmissionIntervalStarted mac 7%N st0 in
  let st2 := DataTransmissionIntervalStarted mac 7%N st1 in
  let st3 := DataTransmissionIntervalStarted mac 7%N st2 in
  let st4 := DataTransmissionIntervalStarted mac 7%N st3 in
  (counter_of st1 7%N, txssCbapRequests st1) = (1, [])
  ∧ (counter_of st2 7%N, txssCbapRequests st2) = (2, [])
  ∧ (counter_of st3 7%N, txssCbapRequests st3) = (0, [(7%N, 1%N)])
  ∧ (counter_of st4 7%N, txssCbapRequests st4) = (1, [(7%N, 1%N)]).
Proof. repeat split. Qed.

(** The sampler's first three firings after [main] has scheduled it. *)
Example sampler_fires_every_100ms :
  (λ st, (Now st, pendingEvents st)) <$>
    Simulator_Invoke 3 (λ _ _, 0) (main_schedule_throughput twoStations)
  = Some (300000000, [(400000000, EvCalculateThroughput)]).
Proof. vm_compute. reflexivity. Qed.
